(** * The carpark client negotiation handlers

    A shallow embedding of
    [packages/fetchai/skills/carpark_client/handlers.py]: the FIPA handler
    that buffers proposals, decides at a count barrier and fans out the
    accept/decline replies, and the search handler that opens one dialogue
    per counterparty.  The handlers run in a small state-and-exception monad
    over the skill context; an exception leaves the state as it was when it
    was raised, as in Python. *)

From Stdlib Require Import ZArith Lia String.
From stdpp Require Import base list strings.

Open Scope string_scope.
Open Scope list_scope.

(** ** Values shared by all messages *)

Definition Address := string.

(** [FipaMessage.Performative], the members the handlers use. *)
Inductive Performative := CFP | PROPOSE | ACCEPT | DECLINE.

#[global] Instance Performative_eq_dec : EqDecision Performative.
Proof. solve_decision. Defined.

(** The slice [s[-5:]]: the last five characters, the whole string when it
    is shorter. *)
Definition last5 (s : string) : string :=
  String.substring (String.length s - 5) 5 s.

(** Modelled from the spec: the failures of the dialogue layer. *)
Inductive Error := UnknownDialogue | ProtocolViolation | InvalidCounterparty.

Inductive Outcome (A : Type) :=
| Returned (a : A)
| Raised (e : Error).
Arguments Returned {A} a.
Arguments Raised {A} e.

(** Modelled from the spec: the states of a dialogue,
    INIT -> CFP_SENT -> PROPOSE_RECEIVED -> ACCEPTED | DECLINED. *)
Inductive DialogueState := INIT | CFP_SENT | PROPOSE_RECEIVED | ACCEPTED | DECLINED.

#[global] Instance DialogueState_eq_dec : EqDecision DialogueState.
Proof. solve_decision. Defined.

(** ** Messages

    The proposal description, the service query and the terms are payloads
    the handlers never look into: the strategy produces and consumes them. *)

(** An inbound PROPOSE message as [_handle_propose] reads it. *)
Record FipaMessage {Description : Type} := {
  sender : Address;
  dialogue_reference : nat;
  proposal : Description;
}.
Arguments FipaMessage : clear implicits.

(** A message handed to the outbox: a CFP built by [create] or a reply
    built by [reply]. *)
Record OutMessage {Description Query : Type} := {
  performative : Performative;
  to : Address;
  out_reference : nat;
  query : option Query;
  target_message : option (FipaMessage Description);
}.
Arguments OutMessage : clear implicits.

Record OefSearchMessage := {
  agents : list Address;
}.

(** ** The strategy object *)

(** One buffered proposal: the dict with keys "sender", "message" and
    "decision"; the decision slot holds [None] until it is decided. *)
Record Carpark {Description : Type} := {
  carpark_sender : Address;
  carpark_message : FipaMessage Description;
  carpark_decision : option Performative;
}.
Arguments Carpark : clear implicits.

Record Strategy {Description : Type} := {
  is_searching : bool;
  is_stop_searching_on_result : bool;
  sent_proposals : list Address;
  received_proposals : list (Carpark Description);
}.
Arguments Strategy : clear implicits.

(** The methods of the strategy object that the handlers call.  They are
    defined in [carpark_client/strategy.py] and its base class; the handlers
    only rely on this interface. *)
Class StrategyPolicy (Description Query Terms : Type) := {
  is_acceptable_proposal : Description -> bool;
  is_affordable_proposal : Description -> bool;
  get_cheapest_proposal : list (Carpark Description) -> Carpark Description;
  terms_from_proposal : Description -> Address -> Terms;
  get_service_query : Query;
  get_acceptable_counterparties : list Address -> list Address;
}.

(** ** Dialogues, logger and outbox *)

(** Modelled from the spec: the Dialogue of the data model, with its
    counterparty, its current state and the terms it has accumulated
    (none until an accept).  The class [FipaDialogue] of
    [generic_buyer/dialogues.py] is absent from the sources. *)
Record FipaDialogue {Terms : Type} := {
  counterparty : Address;
  dialogue_state : DialogueState;
  terms : option Terms;
}.
Arguments FipaDialogue : clear implicits.

Inductive LogRecord {Description : Type} :=
| LogReceivedProposal (values : Description) (sender5 : string)
| LogMakingDecision
| LogDecision (decision : option Performative) (sender5 : string)
| LogNoAgents
| LogFoundAgentsStopping (agents5 : list string)
| LogFoundAgents (agents5 : list string)
| LogSendingCfp (agent5 : string)
| LogCfpsSent (n : nat).
Arguments LogRecord : clear implicits.

(** What a handler does to its collaborators, in program order: a line
    for the logger, a message for the outbox, a write of a dialogue's
    [terms] attribute, a reply built by a dialogue. *)
Inductive Effect {Description Query Terms : Type} :=
| Log (r : LogRecord Description)
| PutMessage (m : OutMessage Description Query)
| SetTerms (d : nat) (t : Terms)
| BuildReply (d : nat) (m : OutMessage Description Query).
Arguments Effect : clear implicits.

(** The skill context.  Dialogues are stored by correlation id, which is
    the position in [fipa_dialogues]. *)
Record SkillContext {Description Query Terms : Type} := {
  strategy : Strategy Description;
  agent_address : Address;
  fipa_dialogues : list (FipaDialogue Terms);
  trace : list (Effect Description Query Terms);
}.
Arguments SkillContext : clear implicits.

(** A message delivered to the skill: a search result for
    [OefSearchHandler] or a proposal for [FipaHandler], each with the
    dialogue the dispatch resolved. *)
Inductive Call {Description : Type} :=
| Search (oef_search_msg : OefSearchMessage) (oef_search_dialogue : nat)
| Propose (fipa_msg : FipaMessage Description) (fipa_dialogue : nat).
Arguments Call : clear implicits.

(** One call of a run: the context it found, the context it left and how
    it ended. *)
Record Step {Description Query Terms : Type} := {
  before : SkillContext Description Query Terms;
  call : Call Description;
  after : SkillContext Description Query Terms;
  outcome : Outcome unit;
}.
Arguments Step : clear implicits.

Section Handlers.

Context {Description Query Terms : Type}.
Context {SP : StrategyPolicy Description Query Terms}.

Abbreviation Ctx := (SkillContext Description Query Terms).
Abbreviation Msg := (FipaMessage Description).
Abbreviation Out := (OutMessage Description Query).

Definition outbox (ctx : Ctx) : list Out :=
  omap (fun e => match e with PutMessage m => Some m | _ => None end) (trace ctx).

Definition logger (ctx : Ctx) : list (LogRecord Description) :=
  omap (fun e => match e with Log r => Some r | _ => None end) (trace ctx).

(** ** The handler monad *)

Definition M (A : Type) : Type := Ctx -> Ctx * Outcome A.

Definition ret {A} (a : A) : M A := fun ctx => (ctx, Returned a).

Definition bind {A B} (m : M A) (k : A -> M B) : M B :=
  fun ctx =>
    match m ctx with
    | (ctx', Returned a) => k a ctx'
    | (ctx', Raised e) => (ctx', Raised e)
    end.

Definition raise {A} (e : Error) : M A := fun ctx => (ctx, Raised e).

Notation "x <- m ;; k" := (bind m (fun x => k))
  (at level 100, m at next level, k at level 200, right associativity).
Notation "m ;;; k" := (bind m (fun _ => k))
  (at level 100, k at level 200, right associativity).

(** [for x in l: body x] *)
Fixpoint for_each {A} (l : list A) (body : A -> M unit) : M unit :=
  match l with
  | [] => ret tt
  | x :: l' => body x ;;; for_each l' body
  end.

Definition emit (e : Effect Description Query Terms) : M unit :=
  fun ctx =>
    ({| strategy := strategy ctx; agent_address := agent_address ctx;
        fipa_dialogues := fipa_dialogues ctx; trace := trace ctx ++ [e] |},
     Returned tt).

Definition logger_info (r : LogRecord Description) : M unit := emit (Log r).
Definition put_message (m : Out) : M unit := emit (PutMessage m).

Definition get_strategy : M (Strategy Description) :=
  fun ctx => (ctx, Returned (strategy ctx)).

Definition modify_strategy (f : Strategy Description -> Strategy Description) : M unit :=
  fun ctx =>
    ({| strategy := f (strategy ctx); agent_address := agent_address ctx;
        fipa_dialogues := fipa_dialogues ctx; trace := trace ctx |},
     Returned tt).

Definition set_dialogues (ds : list (FipaDialogue Terms)) (ctx : Ctx) : Ctx :=
  {| strategy := strategy ctx; agent_address := agent_address ctx;
     fipa_dialogues := ds; trace := trace ctx |}.

(** Attribute writes on the strategy object. *)
Definition set_is_searching (b : bool) (s : Strategy Description)
  : Strategy Description :=
  {| is_searching := b;
     is_stop_searching_on_result := is_stop_searching_on_result s;
     sent_proposals := sent_proposals s;
     received_proposals := received_proposals s |}.

Definition set_sent_proposals (l : list Address) (s : Strategy Description)
  : Strategy Description :=
  {| is_searching := is_searching s;
     is_stop_searching_on_result := is_stop_searching_on_result s;
     sent_proposals := l;
     received_proposals := received_proposals s |}.

Definition set_received_proposals (l : list (Carpark Description))
    (s : Strategy Description) : Strategy Description :=
  {| is_searching := is_searching s;
     is_stop_searching_on_result := is_stop_searching_on_result s;
     sent_proposals := sent_proposals s;
     received_proposals := l |}.

(** ** The dialogue layer *)

(** Modelled from the spec: [FipaDialogues.create] of
    [generic_buyer/dialogues.py], absent from the sources.  It allocates a
    dialogue in state CFP_SENT under a fresh correlation id and builds the
    outbound message; it fails with InvalidCounterparty when the
    counterparty is empty or the agent itself. *)
Definition create (cp : Address) (p : Performative) (q : Query)
  : M (Out * nat) :=
  fun ctx =>
    if bool_decide (cp = "" \/ cp = agent_address ctx) then
      raise InvalidCounterparty ctx
    else
      let ref := length (fipa_dialogues ctx) in
      (set_dialogues
         (fipa_dialogues ctx ++
            [{| counterparty := cp; dialogue_state := CFP_SENT; terms := None |}])
         ctx,
       Returned ({| performative := p; to := cp; out_reference := ref;
                    query := Some q; target_message := None |}, ref)).

(** Modelled from the spec: [FipaDialogues.get_dialogue], the lookup by
    the correlation id carried in a message; it fails with UnknownDialogue
    when there is no match.  The result is the reference to the dialogue
    object. *)
Definition get_dialogue (m : Msg) : M nat :=
  fun ctx =>
    match fipa_dialogues ctx !! dialogue_reference m with
    | Some _ => ret (dialogue_reference m) ctx
    | None => raise UnknownDialogue ctx
    end.

(** Modelled from the spec: the legal transitions a reply may take. *)
Definition legal_reply (st : DialogueState) (p : option Performative)
  : option (DialogueState * Performative) :=
  match st, p with
  | PROPOSE_RECEIVED, Some ACCEPT => Some (ACCEPTED, ACCEPT)
  | PROPOSE_RECEIVED, Some DECLINE => Some (DECLINED, DECLINE)
  | _, _ => None
  end.

Definition set_dialogue_state (st : DialogueState) (d : FipaDialogue Terms)
  : FipaDialogue Terms :=
  {| counterparty := counterparty d; dialogue_state := st; terms := terms d |}.

Definition set_dialogue_terms (t : Terms) (d : FipaDialogue Terms)
  : FipaDialogue Terms :=
  {| counterparty := counterparty d; dialogue_state := dialogue_state d;
     terms := Some t |}.

(** Modelled from the spec: [FipaDialogue.reply], which builds the
    correlated reply and advances the dialogue; it fails with
    ProtocolViolation when the performative is not legal from the
    dialogue's state.  The handler passes the decision slot of a dict, so
    the performative may be [None], which is legal from no state.  A reply
    that is built is recorded in the trace, so that the trace tells what was
    done to the dialogue before and after it. *)
Definition reply (d : nat) (p : option Performative) (target : Msg)
  : M Out :=
  fun ctx =>
    match fipa_dialogues ctx !! d with
    | None => raise UnknownDialogue ctx
    | Some dlg =>
        match legal_reply (dialogue_state dlg) p with
        | Some (st', p') =>
            let msg := {| performative := p'; to := counterparty dlg;
                          out_reference := d; query := None;
                          target_message := Some target |} in
            ({| strategy := strategy ctx; agent_address := agent_address ctx;
                fipa_dialogues :=
                  <[d := set_dialogue_state st' dlg]> (fipa_dialogues ctx);
                trace := trace ctx ++ [BuildReply d msg] |},
             Returned msg)
        | None => raise ProtocolViolation ctx
        end
    end.

(** The assignment [fipa_dialogue.terms = terms]. *)
Definition set_terms (d : nat) (t : Terms) : M unit :=
  fun ctx =>
    ({| strategy := strategy ctx; agent_address := agent_address ctx;
        fipa_dialogues := alter (set_dialogue_terms t) d (fipa_dialogues ctx);
        trace := trace ctx ++ [SetTerms d t] |},
     Returned tt).

(** ** [FipaHandler] *)

(** The dict appended by [_handle_propose]. *)
Definition new_carpark (fipa_msg : Msg) : Carpark Description :=
  {| carpark_sender := sender fipa_msg;
     carpark_message := fipa_msg;
     carpark_decision :=
       if negb (is_acceptable_proposal (proposal fipa_msg))
          || negb (is_affordable_proposal (proposal fipa_msg))
       then Some DECLINE else None |}.

(** The dicts of [received_proposals] are shared objects: the list built
    by [filter] holds the same dicts, and the loop writes their decision
    slot through it.  Every dict is appended exactly once, so a reference
    to one is its position in [received_proposals]. *)
Definition is_undecided (rp : list (Carpark Description)) (i : nat) : bool :=
  match rp !! i with
  | Some x => match carpark_decision x with None => true | Some _ => false end
  | None => false
  end.

Definition undecided_refs (rp : list (Carpark Description)) : list nat :=
  filter (fun i => is_undecided rp i = true) (seq 0 (length rp)).

Definition deref (rp : list (Carpark Description)) (refs : list nat)
  : list (Carpark Description) :=
  omap (fun i => rp !! i) refs.

Definition set_decision (p : Performative) (x : Carpark Description)
  : Carpark Description :=
  {| carpark_sender := carpark_sender x;
     carpark_message := carpark_message x;
     carpark_decision := Some p |}.

(** The loop body [carpark["decision"] = ACCEPT if cheapest else DECLINE];
    the sender of the cheapest proposal is read once, senders are never
    written. *)
Definition decide_carpark (cheapest_proposal x : Carpark Description)
  : Carpark Description :=
  let cheapest := bool_decide (carpark_sender cheapest_proposal = carpark_sender x) in
  set_decision (if cheapest then ACCEPT else DECLINE) x.

(** One iteration of [for carpark in undecided_proposals]; [carpark] is the
    reference to the dict. *)
Definition mark (cheapest_proposal : Carpark Description) (carpark : nat) : M unit :=
  modify_strategy (fun s =>
    set_received_proposals
      (alter (decide_carpark cheapest_proposal) carpark (received_proposals s)) s).

(** One iteration of the loop of [_handle_propose_send]: resolve the
    dialogue, log the decision, attach the terms when the decision is
    ACCEPT, build the reply and put it into the outbox. *)
Definition send_one (carpark : Carpark Description) : M unit :=
  fipa_dialogue <- get_dialogue (carpark_message carpark) ;;
  logger_info (LogDecision (carpark_decision carpark)
                 (last5 (carpark_sender carpark))) ;;;
  (if bool_decide (carpark_decision carpark = Some ACCEPT) then
     set_terms fipa_dialogue
       (terms_from_proposal (proposal (carpark_message carpark))
          (carpark_sender carpark))
   else ret tt) ;;;
  msg <- reply fipa_dialogue (carpark_decision carpark) (carpark_message carpark) ;;
  put_message msg.

(** [FipaHandler._handle_propose_send]: the fan-out of the replies, then
    the two assignments that empty the lists. *)
Definition _handle_propose_send : M unit :=
  strategy <- get_strategy ;;
  for_each (received_proposals strategy) send_one ;;;
  modify_strategy (set_received_proposals []) ;;;
  modify_strategy (set_sent_proposals []).

(** [FipaHandler._handle_propose]: log, append the dict, and when the
    buffer is as long as the sent list decide the pending proposals and fan
    out.  The dialogue argument is not used by the body. *)
Definition _handle_propose (fipa_msg : Msg) (fipa_dialogue : nat) : M unit :=
  logger_info (LogReceivedProposal (proposal fipa_msg) (last5 (sender fipa_msg))) ;;;
  modify_strategy (fun s =>
    set_received_proposals (received_proposals s ++ [new_carpark fipa_msg]) s) ;;;
  strategy <- get_strategy ;;
  if bool_decide (length (received_proposals strategy)
                  = length (sent_proposals strategy)) then
    logger_info LogMakingDecision ;;;
    (let undecided_proposals := undecided_refs (received_proposals strategy) in
     match undecided_proposals with
     | [] => ret tt
     | _ :: _ =>
         let cheapest_proposal :=
           get_cheapest_proposal (deref (received_proposals strategy) undecided_proposals) in
         for_each undecided_proposals (mark cheapest_proposal)
     end) ;;;
    _handle_propose_send
  else ret tt.

(** ** [OefSearchHandler] *)

(** One iteration of [for counterparty in counterparties]. *)
Definition send_cfp (q : Query) (cp : Address) : M unit :=
  created <- create cp CFP q ;;
  modify_strategy (fun s => set_sent_proposals (sent_proposals s ++ [cp]) s) ;;;
  put_message (fst created) ;;;
  logger_info (LogSendingCfp (last5 cp)).

(** [OefSearchHandler._handle_search]: return at once when no agent was
    found; otherwise stop searching if the strategy says so and send a CFP
    to every acceptable counterparty. *)
Definition _handle_search (oef_search_msg : OefSearchMessage)
    (oef_search_dialogue : nat) : M unit :=
  if bool_decide (length (agents oef_search_msg) = 0) then
    logger_info LogNoAgents
  else
    strategy <- get_strategy ;;
    (let agents5 := map last5 (agents oef_search_msg) in
     if is_stop_searching_on_result strategy then
       logger_info (LogFoundAgentsStopping agents5) ;;;
       modify_strategy (set_is_searching false)
     else logger_info (LogFoundAgents agents5)) ;;;
    (let query := get_service_query in
     let counterparties := get_acceptable_counterparties (agents oef_search_msg) in
     for_each counterparties (send_cfp query) ;;;
     logger_info (LogCfpsSent (length counterparties))).

(** ** Dispatch and runs *)

(** Modelled from the spec: [onProposalReceived], the dispatch that
    [GenericFipaHandler.handle] of [generic_buyer/handlers.py] (absent from
    the sources) performs before it calls [_handle_propose].  It resolves
    the dialogue of the message, fails with UnknownDialogue when there is
    none and with ProtocolViolation when the dialogue is not in CFP_SENT;
    otherwise it advances the dialogue to PROPOSE_RECEIVED and hands the
    message to [_handle_propose]. *)
Definition on_proposal_received (fipa_msg : Msg) : M unit :=
  fipa_dialogue <- get_dialogue fipa_msg ;;
  fun ctx =>
    match fipa_dialogues ctx !! fipa_dialogue with
    | None => raise UnknownDialogue ctx
    | Some dlg =>
        if bool_decide (dialogue_state dlg = CFP_SENT) then
          _handle_propose fipa_msg fipa_dialogue
            (set_dialogues
               (<[fipa_dialogue := set_dialogue_state PROPOSE_RECEIVED dlg]>
                  (fipa_dialogues ctx)) ctx)
        else raise ProtocolViolation ctx
    end.

(** A run of consecutive calls of the proposal handler.  An exception of
    one call is the caller's to handle; the next call runs on the state
    the failed call left behind. *)
Definition run_proposals (calls : list (Msg * nat)) (ctx : Ctx) : Ctx :=
  foldl (fun c call => fst (_handle_propose (fst call) (snd call) c)) ctx calls.

(** The effects a call added to the trace. *)
Definition emitted (ctx ctx' : Ctx) : list (Effect Description Query Terms) :=
  drop (length (trace ctx)) (trace ctx').

(** The decision pass announces itself with the log line
    "received all proposals, making decision...". *)
Definition is_making_decision (e : Effect Description Query Terms) : bool :=
  match e with
  | Log LogMakingDecision => true
  | _ => false
  end.

Definition decision_passes (t : list (Effect Description Query Terms)) : nat :=
  length (List.filter is_making_decision t).

(** The decisions a list of buffered proposals carries. *)
Definition count_decision (p : Performative) (rp : list (Carpark Description)) : nat :=
  length (List.filter (fun x => bool_decide (carpark_decision x = Some p)) rp).

(** The received list as the decision pass leaves it for the fan-out. *)
Definition decide_all (rp : list (Carpark Description)) : list (Carpark Description) :=
  match undecided_refs rp with
  | [] => rp
  | refs =>
      foldl (fun l i => alter (decide_carpark (get_cheapest_proposal (deref rp refs))) i l)
        rp refs
  end.

(** ** Vocabulary of the statements *)

Definition set_strategy (s : Strategy Description) (ctx : Ctx) : Ctx :=
  {| strategy := s; agent_address := agent_address ctx;
     fipa_dialogues := fipa_dialogues ctx; trace := trace ctx |}.

Definition add_trace (t : list (Effect Description Query Terms)) (ctx : Ctx) : Ctx :=
  {| strategy := strategy ctx; agent_address := agent_address ctx;
     fipa_dialogues := fipa_dialogues ctx; trace := trace ctx ++ t |}.

Definition carpark_ref (c : Carpark Description) : nat :=
  dialogue_reference (carpark_message c).

Definition carpark_terms (c : Carpark Description) : Terms :=
  terms_from_proposal (proposal (carpark_message c)) (carpark_sender c).

Definition is_accept (c : Carpark Description) : bool :=
  bool_decide (carpark_decision c = Some ACCEPT).

(** What the fan-out does for one proposal whose reply is [m]: the log
    line, the write of the terms when the decision is ACCEPT, then the
    building of the reply by the dialogue, then the reply handed to the
    outbox. *)
Definition reply_effects (c : Carpark Description) (m : Out)
  : list (Effect Description Query Terms) :=
  Log (LogDecision (carpark_decision c) (last5 (carpark_sender c)))
  :: (if is_accept c then [SetTerms (carpark_ref c) (carpark_terms c)] else [])
  ++ [BuildReply (carpark_ref c) m; PutMessage m].

(** [m] is the reply to the proposal [c]: it carries the decision of [c],
    targets the message of [c] and goes to the counterparty of its
    dialogue in [ds]. *)
Definition reply_to (ds : list (FipaDialogue Terms)) (c : Carpark Description) (m : Out)
  : Prop :=
  Some (performative m) = carpark_decision c
  /\ out_reference m = carpark_ref c
  /\ target_message m = Some (carpark_message c)
  /\ query m = None
  /\ Some (to m) = counterparty <$> ds !! carpark_ref c.

(** The dialogue of [c] after its reply. *)
Definition replied (c : Carpark Description) (dlg : FipaDialogue Terms)
  : FipaDialogue Terms :=
  {| counterparty := counterparty dlg;
     dialogue_state := if is_accept c then ACCEPTED else DECLINED;
     terms := if is_accept c then Some (carpark_terms c) else terms dlg |}.

Definition reply_message (c : Carpark Description) (p : Performative)
    (dlg : FipaDialogue Terms) : Out :=
  {| performative := p; to := counterparty dlg; out_reference := carpark_ref c;
     query := None; target_message := Some (carpark_message c) |}.

(** The context after the two assignments that close a round. *)
Definition reset (ctx : Ctx) : Ctx :=
  set_strategy (set_sent_proposals [] (set_received_proposals [] (strategy ctx))) ctx.

(** The received list right after the append of [_handle_propose]. *)
Definition buffered (fipa_msg : Msg) (ctx : Ctx) : list (Carpark Description) :=
  received_proposals (strategy ctx) ++ [new_carpark fipa_msg].

Definition log_received (fipa_msg : Msg) : Effect Description Query Terms :=
  Log (LogReceivedProposal (proposal fipa_msg) (last5 (sender fipa_msg))).

(** The context in which the reply to [c] is built: the decision is
    logged and, when it is ACCEPT, the terms are attached. *)
Definition before_reply (c : Carpark Description) (ctx : Ctx) : Ctx :=
  let line := Log (LogDecision (carpark_decision c) (last5 (carpark_sender c))) in
  if is_accept c then
    {| strategy := strategy ctx; agent_address := agent_address ctx;
       fipa_dialogues :=
         alter (set_dialogue_terms (carpark_terms c)) (carpark_ref c) (fipa_dialogues ctx);
       trace := (trace ctx ++ [line]) ++ [SetTerms (carpark_ref c) (carpark_terms c)] |}
  else add_trace [line] ctx.

(** The context after the reply to [c], whose dialogue was [dlg]. *)
Definition after_reply (c : Carpark Description) (p : Performative)
    (dlg : FipaDialogue Terms) (ctx : Ctx) : Ctx :=
  {| strategy := strategy ctx; agent_address := agent_address ctx;
     fipa_dialogues := <[carpark_ref c := replied c dlg]> (fipa_dialogues ctx);
     trace := trace ctx ++ reply_effects c (reply_message c p dlg) |}.

(** [ctx'] differs from [ctx] by dialogue updates and by trace entries
    that announce no decision pass; the strategy is the same. *)
Definition framed (ctx ctx' : Ctx) : Prop :=
  strategy ctx' = strategy ctx
  /\ agent_address ctx' = agent_address ctx
  /\ exists t, trace ctx' = trace ctx ++ t /\ decision_passes t = 0.

(** What the decision loop does to one buffered proposal: a decided one
    is left alone, a pending one is compared with the cheapest. *)
Definition decide_if_pending (cheapest_proposal c : Carpark Description)
  : Carpark Description :=
  match carpark_decision c with
  | None => decide_carpark cheapest_proposal c
  | Some _ => c
  end.

Definition pending (rp : list (Carpark Description)) : list (Carpark Description) :=
  deref rp (undecided_refs rp).

(** ** Runs of both handlers *)

Definition handle_call (c : Call Description) : M unit :=
  match c with
  | Search oef_search_msg oef_search_dialogue =>
      _handle_search oef_search_msg oef_search_dialogue
  | Propose fipa_msg fipa_dialogue => _handle_propose fipa_msg fipa_dialogue
  end.

Definition step_of (c : Call Description) (ctx : Ctx) : Step Description Query Terms :=
  {| before := ctx; call := c;
     after := fst (handle_call c ctx); outcome := snd (handle_call c ctx) |}.

(** The calls of a run in order.  As in [run_proposals], a call that raised
    leaves its state to the next call. *)
Fixpoint history (calls : list (Call Description)) (ctx : Ctx)
  : list (Step Description Query Terms) :=
  match calls with
  | [] => []
  | c :: l => step_of c ctx :: history l (fst (handle_call c ctx))
  end.

(** The call ran the decision pass. *)
Definition fired (s : Step Description Query Terms) : Prop :=
  1 <= decision_passes (emitted (before s) (after s)).

(** Both lists are empty, as the two assignments that close a round leave
    them. *)
Definition is_reset (ctx : Ctx) : Prop :=
  sent_proposals (strategy ctx) = [] /\ received_proposals (strategy ctx) = [].

(** ** Vocabulary for the search handler and for rounds *)

(** The CFP that [create] builds for [cp] under the correlation id [ref],
    and the dialogue it opens. *)
Definition cfp_message (q : Query) (ref : nat) (cp : Address) : Out :=
  {| performative := CFP; to := cp; out_reference := ref;
     query := Some q; target_message := None |}.

Definition cfp_dialogue (cp : Address) : FipaDialogue Terms :=
  {| counterparty := cp; dialogue_state := CFP_SENT; terms := None |}.

(** The CFPs for the counterparties [cps], the first under the id [ref]. *)
Fixpoint cfp_messages (q : Query) (ref : nat) (cps : list Address) : list Out :=
  match cps with
  | [] => []
  | cp :: l => cfp_message q ref cp :: cfp_messages q (S ref) l
  end.

(** What the loop of [_handle_search] adds to the trace for [cps]. *)
Fixpoint cfp_effects (q : Query) (ref : nat) (cps : list Address)
  : list (Effect Description Query Terms) :=
  match cps with
  | [] => []
  | cp :: l =>
      PutMessage (cfp_message q ref cp) :: Log (LogSendingCfp (last5 cp))
      :: cfp_effects q (S ref) l
  end.

(** The context after the loop of [_handle_search] went through [cps]. *)
Definition cfp_sent (q : Query) (cps : list Address) (ctx : Ctx) : Ctx :=
  {| strategy := set_sent_proposals (sent_proposals (strategy ctx) ++ cps) (strategy ctx);
     agent_address := agent_address ctx;
     fipa_dialogues := fipa_dialogues ctx ++ (cfp_dialogue <$> cps);
     trace := trace ctx ++ cfp_effects q (length (fipa_dialogues ctx)) cps |}.

(** The counterparties [create] accepts before the first one it refuses. *)
Fixpoint served (self : Address) (cps : list Address) : list Address :=
  match cps with
  | [] => []
  | cp :: l =>
      if bool_decide (cp = "" \/ cp = self) then [] else cp :: served self l
  end.

(** The context of [_handle_search] when the loop starts: the result is
    logged and the search is stopped when the strategy says so. *)
Definition found (oef_search_msg : OefSearchMessage) (ctx : Ctx) : Ctx :=
  if is_stop_searching_on_result (strategy ctx) then
    set_strategy (set_is_searching false (strategy ctx))
      (add_trace [Log (LogFoundAgentsStopping (map last5 (agents oef_search_msg)))] ctx)
  else add_trace [Log (LogFoundAgents (map last5 (agents oef_search_msg)))] ctx.

(** The context on which [_handle_propose] starts the fan-out when the
    barrier fires. *)
Definition at_barrier (fipa_msg : Msg) (ctx : Ctx) : Ctx :=
  add_trace [log_received fipa_msg; Log LogMakingDecision]
    (set_strategy
       (set_received_proposals (decide_all (buffered fipa_msg ctx)) (strategy ctx)) ctx).

(** A dict as [_handle_propose] appends it and as it stays until a decision
    pass: its sender is the sender of its message and its slot is empty or
    DECLINE. *)
Definition undisturbed (c : Carpark Description) : Prop :=
  carpark_sender c = sender (carpark_message c)
  /\ (carpark_decision c = None \/ carpark_decision c = Some DECLINE).

(** The log lines of a run of proposals that only accumulate. *)
Definition received_lines (calls : list (Msg * nat))
  : list (Effect Description Query Terms) :=
  (fun call => log_received (fst call)) <$> calls.

Definition is_set_terms (e : Effect Description Query Terms) : bool :=
  match e with
  | SetTerms _ _ => true
  | _ => false
  end.

End Handlers.

(** ** A strategy that ranks by cost *)

Module CostStrategy.

(** The first proposal of minimal cost among [best :: l], as Python's
    [min] picks it. *)
Fixpoint cheapest_from (best : Carpark Z) (l : list (Carpark Z)) : Carpark Z :=
  match l with
  | [] => best
  | x :: l' =>
      cheapest_from
        (if (proposal (carpark_message x) <? proposal (carpark_message best))%Z
         then x else best) l'
  end.

(** [min] is only called on a non-empty list; the value on the empty list
    is never used. *)
Definition no_carpark : Carpark Z :=
  {| carpark_sender := "";
     carpark_message := {| sender := ""; dialogue_reference := 0; proposal := 0%Z |};
     carpark_decision := None |}.

(** Modelled from the spec: [StrategyPolicy.cheapest], the minimum-cost
    element of the pending proposals; [get_cheapest_proposal] of
    [carpark_client/strategy.py] is absent from the sources. *)
Definition cheapest (l : list (Carpark Z)) : Carpark Z :=
  match l with
  | [] => no_carpark
  | x :: l' => cheapest_from x l'
  end.

(** Modelled from the spec: a strategy for the testable properties P5 and
    P6 ([carpark_client/strategy.py] is absent from the sources).  A
    proposal is its cost; every proposal is acceptable; it is affordable
    when its cost does not exceed the budget; the terms are the counterparty
    and the agreed cost; every counterparty is acceptable. *)
Definition policy (budget : Z) : StrategyPolicy Z string (Address * Z) :=
  {| is_acceptable_proposal := fun _ => true;
     is_affordable_proposal := fun cost => (cost <=? budget)%Z;
     get_cheapest_proposal := cheapest;
     terms_from_proposal := fun cost cp => (cp, cost);
     get_service_query := "carpark";
     get_acceptable_counterparties := fun l => l |}.

Definition Ctx := SkillContext Z string (Address * Z).

Definition propose (from : Address) (ref : nat) (cost : Z) : FipaMessage Z :=
  {| sender := from; dialogue_reference := ref; proposal := cost |}.

Definition awaiting (cp : Address) : FipaDialogue (Address * Z) :=
  {| counterparty := cp; dialogue_state := PROPOSE_RECEIVED; terms := None |}.

(** A fresh agent: nothing sent, nothing received, no dialogue. *)
Definition fresh : Ctx :=
  {| strategy := {| is_searching := true; is_stop_searching_on_result := false;
                    sent_proposals := []; received_proposals := [] |};
     agent_address := "buyer";
     fipa_dialogues := [];
     trace := [] |}.

(** An agent in the middle of a round: CFPs went to [sent], and the
    dialogues [ds] are open. *)
Definition in_round (sent : list Address) (ds : list (FipaDialogue (Address * Z))) : Ctx :=
  {| strategy := {| is_searching := false; is_stop_searching_on_result := true;
                    sent_proposals := sent; received_proposals := [] |};
     agent_address := "buyer";
     fipa_dialogues := ds;
     trace := [] |}.

Definition performatives (ctx : Ctx) : list (Performative * Address) :=
  map (fun m => (performative m, to m)) (outbox ctx).

(** A buyer with a budget of 100. *)
Definition rich : StrategyPolicy Z string (Address * Z) := policy 100.

(** One CFP went out; the proposal of agent_X closes the round. *)
Definition one_sent : Ctx := in_round ["agent_X"] [awaiting "agent_X"].

(** Two CFPs went out; a proposal of agent_X alone does not close the
    round. *)
Definition two_sent : Ctx :=
  in_round ["agent_X"; "agent_Y"] [awaiting "agent_X"; awaiting "agent_Y"].

(** A round decided but not yet answered: Y accepted, X declined. *)
Definition decided_round : Ctx :=
  {| strategy :=
       {| is_searching := false; is_stop_searching_on_result := true;
          sent_proposals := ["agent_X"; "agent_Y"];
          received_proposals :=
            [set_decision ACCEPT (new_carpark (SP := rich) (propose "agent_Y" 1 9));
             set_decision DECLINE (new_carpark (SP := rich) (propose "agent_X" 0 15))] |};
     agent_address := "buyer";
     fipa_dialogues := [awaiting "agent_X"; awaiting "agent_Y"];
     trace := [] |}.

(** The search found agent_X and a CFP went out: the dialogue is in
    CFP_SENT. *)
Definition searched : Ctx :=
  fst (_handle_search (SP := rich) {| agents := ["agent_X"] |} 0 fresh).

(** A proposal arrived although no CFP was sent: the buffer is longer
    than the sent list. *)
Definition overfull : Ctx :=
  fst (_handle_propose (SP := rich) (propose "agent_X" 0 9) 0 fresh).

(** A round whose only dialogue is missing from the store. *)
Definition no_dialogue : Ctx := in_round ["agent_X"] [].

(** Search results: two agents; the agent itself among the agents. *)
Definition two_agents : OefSearchMessage := {| agents := ["agent_X"; "agent_Y"] |}.

Definition with_self : OefSearchMessage :=
  {| agents := ["agent_X"; "buyer"; "agent_Y"] |}.

(** The replies of [decided_round]. *)
Definition accept_Y : OutMessage Z string :=
  {| performative := ACCEPT; to := "agent_Y"; out_reference := 1; query := None;
     target_message := Some (propose "agent_Y" 1 9) |}.

Definition decline_X : OutMessage Z string :=
  {| performative := DECLINE; to := "agent_X"; out_reference := 0; query := None;
     target_message := Some (propose "agent_X" 0 15) |}.

(** Three CFPs went out; agent_Y proposed 9 and agent_X proposed 150, over
    the budget. *)
Definition three_sent : Ctx :=
  in_round ["agent_X"; "agent_Y"; "agent_Z"]
    [awaiting "agent_X"; awaiting "agent_Y"; awaiting "agent_Z"].

Definition two_buffered : Ctx :=
  run_proposals (SP := rich)
    [(propose "agent_Y" 1 9, 1); (propose "agent_X" 0 150, 0)] three_sent.

(** Two rounds in a row: the proposal of agent_X closes the first, a
    search finds agent_Y, the proposal of agent_Y closes the second. *)
Definition two_rounds : list (Call Z) :=
  [Propose (propose "agent_X" 0 9) 0;
   Search {| agents := ["agent_Y"] |} 0;
   Propose (propose "agent_Y" 1 11) 1].

(** The proposal of agent_X closes a round whose fan-out raises; then a
    search finds agent_Y and the proposal of agent_Y arrives. *)
Definition after_failure : list (Call Z) :=
  [Propose (propose "agent_X" 0 9) 0;
   Search {| agents := ["agent_Y"] |} 0;
   Propose (propose "agent_Y" 0 11) 0].

End CostStrategy.

(** ** The registry client *)

Module Registry.

(** A parsed JSON object with string fields. *)
Definition JSON := list (string * string).

Definition field (k : string) (j : JSON) : option string :=
  snd <$> List.find (fun kv => String.eqb (fst kv) k) j.

Record Response := {
  status_code : Z;
  json : JSON;
}.

(** What one call of [requests.request] yields. *)
Inductive Attempt :=
| Responds (r : Response)
| ConnectionError.

(** The server as the client sees it: the outcome of the n-th request
    for a method and a path, and the number of requests made so far. *)
Record Network := {
  respond : nat -> string -> string -> Attempt;
  requests_made : nat;
}.

Inductive ClickException :=
| NoAuthData
| ServerNotResponding
| Conflict (detail : option string)
| WrongResponse (code : Z).

Definition is_2xx (code : Z) : bool := (200 <=? code)%Z && (code <? 300)%Z.

(** Modelled from the spec: [request_api] of [aea/cli/registry/utils.py],
    which is absent from the sources; its tests are in
    [tests/test_cli/test_registry/test_utils.py].  The client fails without
    a request when authentication is asked for and no token is configured;
    otherwise it sends one request.  A 2xx response yields the parsed JSON
    body (with the status code when [return_code] is set), a 409 response a
    CLI error that carries the [detail] field of the body, any other
    response and a connection failure a CLI error. *)
Definition request_api (method path : string) (is_auth : bool)
    (token : option string) (return_code : bool) (net : Network)
  : Network * (ClickException + JSON * option Z) :=
  if is_auth && negb (bool_decide (is_Some token)) then (net, inl NoAuthData)
  else
    let net' := {| respond := respond net; requests_made := S (requests_made net) |} in
    match respond net (requests_made net) method path with
    | ConnectionError => (net', inl ServerNotResponding)
    | Responds resp =>
        if is_2xx (status_code resp) then
          (net', inr (json resp, if return_code then Some (status_code resp) else None))
        else if (status_code resp =? 409)%Z then
          (net', inl (Conflict (field "detail" (json resp))))
        else (net', inl (WrongResponse (status_code resp)))
    end.

(** A server that answers every request in the same way. *)
Definition always (a : Attempt) : Network :=
  {| respond := fun _ _ _ => a; requests_made := 0 |}.

End Registry.

(** * Properties of the handlers *)

Section Proofs.

Context {Description Query Terms : Type}.
Context {SP : StrategyPolicy Description Query Terms}.

Abbreviation Ctx := (SkillContext Description Query Terms).
Abbreviation Msg := (FipaMessage Description).
Abbreviation Out := (OutMessage Description Query).
Abbreviation Eff := (Effect Description Query Terms).

Implicit Types (ctx : Ctx) (c : Carpark Description) (rp : list (Carpark Description)).

Ltac run :=
  unfold bind, ret, raise, logger_info, put_message, emit, modify_strategy,
    get_strategy, set_terms, get_dialogue, reply in *;
  simpl in *.

Lemma context_eta ctx :
  {| strategy := strategy ctx; agent_address := agent_address ctx;
     fipa_dialogues := fipa_dialogues ctx; trace := trace ctx |} = ctx.
Proof. by destruct ctx. Qed.

Lemma strategy_eta (s : Strategy Description) :
  {| is_searching := is_searching s;
     is_stop_searching_on_result := is_stop_searching_on_result s;
     sent_proposals := sent_proposals s;
     received_proposals := received_proposals s |} = s.
Proof. by destruct s. Qed.

(** *** The decision loop *)

Lemma for_each_mark ch refs ctx :
  for_each refs (mark ch) ctx =
  (set_strategy
     (set_received_proposals
        (foldl (fun l i => alter (decide_carpark ch) i l)
           (received_proposals (strategy ctx)) refs)
        (strategy ctx)) ctx,
   Returned tt).
Proof.
  revert ctx. induction refs as [|i refs IH]; intros ctx.
  - simpl. unfold ret, set_strategy, set_received_proposals.
    by rewrite strategy_eta, context_eta.
  - simpl. unfold bind. unfold mark at 1, modify_strategy. rewrite IH.
    reflexivity.
Qed.

Lemma length_decision_loop ch refs rp :
  length (foldl (fun l i => alter (decide_carpark ch) i l) rp refs) = length rp.
Proof.
  revert rp. induction refs as [|i refs IH]; intros rp; simpl; [done|].
  by rewrite IH, length_alter.
Qed.

Lemma length_decide_all rp : length (decide_all rp) = length rp.
Proof.
  unfold decide_all. destruct (undecided_refs rp); [done|].
  apply length_decision_loop.
Qed.

(** *** The handlers, unfolded *)

Lemma handle_propose_send_eq ctx :
  _handle_propose_send ctx =
  match for_each (received_proposals (strategy ctx)) send_one ctx with
  | (ctx1, Returned _) => (reset ctx1, Returned tt)
  | (ctx1, Raised e) => (ctx1, Raised e)
  end.
Proof.
  unfold _handle_propose_send. run.
  destruct (for_each _ _ ctx) as [ctx1 [[]|e]]; reflexivity.
Qed.

Lemma handle_propose_eq (fipa_msg : Msg) (d : nat) ctx :
  _handle_propose fipa_msg d ctx =
  if bool_decide (length (buffered fipa_msg ctx) = length (sent_proposals (strategy ctx)))
  then
    _handle_propose_send
      (add_trace [log_received fipa_msg; Log LogMakingDecision]
         (set_strategy
            (set_received_proposals (decide_all (buffered fipa_msg ctx)) (strategy ctx))
            ctx))
  else
    (add_trace [log_received fipa_msg]
       (set_strategy (set_received_proposals (buffered fipa_msg ctx) (strategy ctx)) ctx),
     Returned tt).
Proof.
  unfold _handle_propose, buffered. run.
  case_bool_decide as Hlen; [|reflexivity].
  unfold decide_all.
  destruct (undecided_refs _) as [|i refs] eqn:Hrefs.
  - unfold add_trace, set_strategy. simpl. rewrite <- app_assoc. reflexivity.
  - rewrite for_each_mark. unfold add_trace, set_strategy; simpl.
    rewrite <- app_assoc. reflexivity.
Qed.

(** *** One step of the fan-out *)

Lemma insert_after_alter {A} (f : A -> A) (x : A) (l : list A) i :
  <[i := x]> (alter f i l) = <[i := x]> l.
Proof.
  rewrite !list_insert_alter, list_alter_alter_eq. by apply list_alter_ext.
Qed.

Lemma send_one_eq c ctx :
  send_one c ctx =
  match fipa_dialogues ctx !! carpark_ref c with
  | None => (ctx, Raised UnknownDialogue)
  | Some dlg =>
      match legal_reply (dialogue_state dlg) (carpark_decision c) with
      | Some (_, p) => (after_reply c p dlg ctx, Returned tt)
      | None => (before_reply c ctx, Raised ProtocolViolation)
      end
  end.
Proof.
  unfold send_one, after_reply, before_reply, reply_effects, replied, reply_message,
    is_accept, carpark_ref, add_trace.
  run.
  destruct (fipa_dialogues ctx !! _) as [dlg|] eqn:Hd; simpl; [|done].
  case_bool_decide as Hacc; simpl.
  - rewrite list_lookup_alter_eq, Hd. simpl. rewrite Hacc.
    destruct (dialogue_state dlg); simpl; try done.
    rewrite insert_after_alter, <- !app_assoc. reflexivity.
  - rewrite Hd.
    destruct (dialogue_state dlg), (carpark_decision c) as [[]|]; simpl; try done.
    rewrite <- !app_assoc. reflexivity.
Qed.

(** *** The fan-out loop *)

Lemma decision_passes_app (t1 t2 : list Eff) :
  decision_passes (t1 ++ t2) = decision_passes t1 + decision_passes t2.
Proof. unfold decision_passes. by rewrite List.filter_app, length_app. Qed.

Lemma decision_passes_reply c m : decision_passes (reply_effects c m) = 0.
Proof. unfold reply_effects. by destruct (is_accept c). Qed.

Lemma framed_refl ctx : framed ctx ctx.
Proof. repeat split. exists []. by rewrite app_nil_r. Qed.

Lemma framed_trans ctx1 ctx2 ctx3 : framed ctx1 ctx2 -> framed ctx2 ctx3 -> framed ctx1 ctx3.
Proof.
  intros (Hs1 & Ha1 & t1 & Ht1 & Hp1) (Hs2 & Ha2 & t2 & Ht2 & Hp2).
  repeat split; [congruence..|].
  exists (t1 ++ t2). rewrite Ht2, Ht1, app_assoc, decision_passes_app. split; [done|lia].
Qed.

Lemma send_one_frame c ctx ctx' o : send_one c ctx = (ctx', o) -> framed ctx ctx'.
Proof.
  rewrite send_one_eq.
  destruct (fipa_dialogues ctx !! _) as [dlg|].
  - destruct (legal_reply _ _) as [[st p]|]; intros [= <- <-].
    + repeat split. eexists. split; [reflexivity|]. apply decision_passes_reply.
    + unfold before_reply. destruct (is_accept c); repeat split; simpl.
      * exists [Log (LogDecision (carpark_decision c) (last5 (carpark_sender c)));
                SetTerms (carpark_ref c) (carpark_terms c)].
        by rewrite <- app_assoc.
      * by eexists.
  - intros [= <- <-]. apply framed_refl.
Qed.

Lemma send_loop_frame l ctx ctx' o :
  for_each l send_one ctx = (ctx', o) -> framed ctx ctx'.
Proof.
  revert ctx. induction l as [|c l IH]; intros ctx; simpl.
  - intros [= <- <-]. apply framed_refl.
  - unfold bind. destruct (send_one c ctx) as [ctx1 [[]|e]] eqn:Hc.
    + intros Hl. eapply framed_trans; [by eapply send_one_frame | by eapply IH].
    + intros [= <- <-]. by eapply send_one_frame.
Qed.

Lemma legal_reply_Some st (d : option Performative) st' p :
  legal_reply st d = Some (st', p) ->
  st = PROPOSE_RECEIVED /\ d = Some p /\ (p = ACCEPT \/ p = DECLINE).
Proof. destruct st, d as [[]|]; simpl; intros [= <- <-]; auto. Qed.

Lemma replied_not_awaiting c (dlg : FipaDialogue Terms) :
  dialogue_state (replied c dlg) <> PROPOSE_RECEIVED.
Proof. unfold replied; simpl. by destruct (is_accept c). Qed.

(** A fan-out that returns has answered every buffered proposal once, in
    the order of the list; the dialogues it answered were pairwise
    distinct and awaiting a decision, and no other dialogue changed. *)
Lemma send_loop_returned l ctx ctx' :
  for_each l send_one ctx = (ctx', Returned tt) ->
  exists replies,
    Forall2 (reply_to (fipa_dialogues ctx)) l replies
    /\ trace ctx' = trace ctx ++ concat (zip_with reply_effects l replies)
    /\ NoDup (carpark_ref <$> l)
    /\ (forall c, c ∈ l ->
          exists dlg, fipa_dialogues ctx !! carpark_ref c = Some dlg
                      /\ dialogue_state dlg = PROPOSE_RECEIVED
                      /\ fipa_dialogues ctx' !! carpark_ref c = Some (replied c dlg))
    /\ (forall d, d ∉ carpark_ref <$> l ->
          fipa_dialogues ctx' !! d = fipa_dialogues ctx !! d).
Proof.
  revert ctx. induction l as [|c l IH]; intros ctx; simpl.
  - intros [= <-]. exists []. repeat split.
    + constructor.
    + by rewrite app_nil_r.
    + constructor.
    + intros c Hc. by apply elem_of_nil in Hc.
  - unfold bind. destruct (send_one c ctx) as [ctx1 [[]|e]] eqn:Hc; [|done].
    rewrite send_one_eq in Hc.
    destruct (fipa_dialogues ctx !! carpark_ref c) as [dlg|] eqn:Hd; [|done].
    destruct (legal_reply _ _) as [[st p]|] eqn:Hlegal; [|done].
    injection Hc as <-.
    apply legal_reply_Some in Hlegal as (Hst & Hdec & Hp).
    intros Hl. destruct (IH _ Hl) as (replies & Hrep & Htr & Hnd & Hin & Hout).
    simpl in *.
    assert (Hlt : carpark_ref c < length (fipa_dialogues ctx))
      by (by eapply lookup_lt_Some).
    assert (Hfresh : carpark_ref c ∉ carpark_ref <$> l).
    { intros (c' & Href & Hc')%list_elem_of_fmap.
      destruct (Hin _ Hc') as (dlg' & Hd' & Hst' & _).
      rewrite <- Href, list_lookup_insert_eq in Hd' by done.
      injection Hd' as <-. by apply replied_not_awaiting in Hst'. }
    exists (reply_message c p dlg :: replies). repeat split.
    + constructor.
      * unfold reply_to, reply_message; simpl. rewrite Hd. by repeat split.
      * eapply Forall2_impl; [exact Hrep|].
        intros c' m (? & ? & ? & ? & Hto). repeat split; try done.
        rewrite Hto. destruct (decide (carpark_ref c = carpark_ref c')) as [<-|Hne].
        -- by rewrite list_lookup_insert_eq, Hd.
        -- by rewrite list_lookup_insert_ne.
    + rewrite Htr. simpl. by rewrite <- app_assoc.
    + apply NoDup_cons. by split.
    + intros c' [->|Hc']%elem_of_cons.
      * exists dlg. repeat split; try done.
        rewrite Hout by done. by rewrite list_lookup_insert_eq.
      * destruct (Hin _ Hc') as (dlg' & Hd' & Hst' & Hfin).
        exists dlg'. repeat split; try done.
        rewrite list_lookup_insert_ne in Hd'; [done|].
        intros Heq. apply Hfresh. rewrite Heq. by apply list_elem_of_fmap_2.
    + intros d [Hne Hd']%not_elem_of_cons.
      rewrite Hout by done. by rewrite list_lookup_insert_ne.
Qed.

(** *** The decision loop, pointwise *)

Lemma decision_loop_lookup ch refs rp i :
  NoDup refs ->
  foldl (fun l j => alter (decide_carpark ch) j l) rp refs !! i =
  if bool_decide (i ∈ refs) then decide_carpark ch <$> rp !! i else rp !! i.
Proof.
  intros Hnd. revert rp. induction Hnd as [|r refs Hr Hnd IH]; intros rp.
  - case_bool_decide as Hin; [by apply elem_of_nil in Hin | done].
  - cbn [foldl]. rewrite IH. destruct (decide (i = r)) as [->|Hne].
    + rewrite list_lookup_alter_eq.
      repeat case_bool_decide; try done.
      exfalso. eauto using list_elem_of_here.
    + rewrite list_lookup_alter_ne by done.
      repeat case_bool_decide; try done.
      * exfalso. eauto using list_elem_of_further.
      * match goal with
        | Hin : _ ∈ _ :: _ |- _ => by apply elem_of_cons in Hin as [?|?]
        end.
Qed.

Lemma undecided_refs_NoDup rp : NoDup (undecided_refs rp).
Proof. unfold undecided_refs. apply NoDup_filter, NoDup_seq. Qed.

Lemma elem_of_undecided_refs rp i : i ∈ undecided_refs rp <-> is_undecided rp i = true.
Proof.
  unfold undecided_refs. rewrite list_elem_of_filter, elem_of_seq.
  split; [tauto|]. intros Hu. split; [done|].
  unfold is_undecided in Hu. destruct (rp !! i) eqn:Hi; [|done].
  apply lookup_lt_Some in Hi. lia.
Qed.

Lemma decide_all_lookup rp i :
  decide_all rp !! i = decide_if_pending (get_cheapest_proposal (pending rp)) <$> rp !! i.
Proof.
  unfold decide_all, pending.
  destruct (undecided_refs rp) as [|r refs] eqn:Hrefs.
  - destruct (rp !! i) as [c|] eqn:Hi; simpl; [|done].
    unfold decide_if_pending. destruct (carpark_decision c) eqn:Hc; [done|].
    assert (i ∈ undecided_refs rp) as Hin.
    { apply elem_of_undecided_refs. unfold is_undecided. by rewrite Hi, Hc. }
    rewrite Hrefs in Hin. by apply elem_of_nil in Hin.
  - rewrite <- Hrefs. rewrite decision_loop_lookup by apply undecided_refs_NoDup.
    destruct (rp !! i) as [c|] eqn:Hi; simpl; [|by case_bool_decide].
    unfold decide_if_pending.
    case_bool_decide as Hin; rewrite elem_of_undecided_refs in Hin;
      unfold is_undecided in Hin; rewrite Hi in Hin;
      by destruct (carpark_decision c).
Qed.

(** The decision pass is a map over the buffer: the loop over the pending
    proposals writes through to the dicts of [received_proposals]. *)
Lemma decide_all_map rp :
  decide_all rp = decide_if_pending (get_cheapest_proposal (pending rp)) <$> rp.
Proof.
  apply list_eq. intros i. by rewrite decide_all_lookup, list_lookup_fmap.
Qed.

(** *** One call of the proposal handler *)

Lemma emitted_app ctx ctx' (t : list Eff) :
  trace ctx' = trace ctx ++ t -> emitted ctx ctx' = t.
Proof. unfold emitted. intros ->. apply drop_app_length. Qed.

Lemma handle_propose_waiting (msg : Msg) (d : nat) ctx :
  length (buffered msg ctx) <> length (sent_proposals (strategy ctx)) ->
  _handle_propose msg d ctx =
  (add_trace [log_received msg]
     (set_strategy (set_received_proposals (buffered msg ctx) (strategy ctx)) ctx),
   Returned tt).
Proof. intros Hne. rewrite handle_propose_eq. by rewrite bool_decide_eq_false_2. Qed.

Lemma handle_propose_fired (msg : Msg) (d : nat) ctx ctx' o :
  length (buffered msg ctx) = length (sent_proposals (strategy ctx)) ->
  _handle_propose msg d ctx = (ctx', o) ->
  (exists t, trace ctx' = trace ctx ++ log_received msg :: Log LogMakingDecision :: t
             /\ decision_passes t = 0)
  /\ match o with
     | Returned _ =>
         sent_proposals (strategy ctx') = []
         /\ received_proposals (strategy ctx') = []
     | Raised _ =>
         sent_proposals (strategy ctx') = sent_proposals (strategy ctx)
         /\ received_proposals (strategy ctx') = decide_all (buffered msg ctx)
     end.
Proof.
  intros Hlen. rewrite handle_propose_eq, bool_decide_eq_true_2 by done.
  rewrite handle_propose_send_eq.
  destruct (for_each _ _ _) as [ctx1 o1] eqn:Hloop.
  apply send_loop_frame in Hloop as (Hs & _ & t & Ht & Hp). simpl in *.
  destruct o1 as [[]|e]; intros [= <- <-]; simpl.
  - split; [|done]. exists t. by rewrite Ht, <- app_assoc.
  - rewrite Hs. simpl. split; [|done]. exists t. by rewrite Ht, <- app_assoc.
Qed.

Lemma handle_propose_passes (msg : Msg) (d : nat) ctx :
  exists t, trace (fst (_handle_propose msg d ctx)) = trace ctx ++ t
            /\ decision_passes t =
               if bool_decide (length (buffered msg ctx)
                               = length (sent_proposals (strategy ctx)))
               then 1 else 0.
Proof.
  case_bool_decide as Hlen.
  - destruct (_handle_propose msg d ctx) as [ctx' o] eqn:Hcall.
    destruct (handle_propose_fired _ _ _ _ _ Hlen Hcall) as [(t & Ht & Hp) _].
    eexists. split; [exact Ht|].
    change (log_received msg :: Log LogMakingDecision :: t)
      with ([log_received msg; Log LogMakingDecision] ++ t).
    rewrite decision_passes_app, Hp. reflexivity.
  - rewrite handle_propose_waiting by done. by exists [log_received msg].
Qed.

(** *** Runs of the proposal handler *)

(** Once the buffer is at least as long as the sent list, the barrier
    stays shut for every later proposal. *)
Lemma run_overfull calls ctx :
  length (sent_proposals (strategy ctx)) <= length (received_proposals (strategy ctx)) ->
  (exists t, trace (run_proposals calls ctx) = trace ctx ++ t /\ decision_passes t = 0)
  /\ sent_proposals (strategy (run_proposals calls ctx)) = sent_proposals (strategy ctx)
  /\ length (received_proposals (strategy (run_proposals calls ctx)))
     = length (received_proposals (strategy ctx)) + length calls.
Proof.
  revert ctx. induction calls as [|[msg d] calls IH]; intros ctx Hle.
  - simpl. split; [|split; [done|lia]]. exists []. by rewrite app_nil_r.
  - cbn [run_proposals foldl fst snd].
    assert (Hne : length (buffered msg ctx) <> length (sent_proposals (strategy ctx))).
    { unfold buffered. rewrite length_app. simpl. lia. }
    rewrite handle_propose_waiting by done. cbn [fst].
    destruct (IH (add_trace [log_received msg]
                    (set_strategy
                       (set_received_proposals (buffered msg ctx) (strategy ctx)) ctx)))
      as ((t & Ht & Hp) & Hsent & Hrecv).
    { simpl. unfold buffered. rewrite length_app. simpl. lia. }
    unfold run_proposals in Ht, Hsent, Hrecv. split; [|split].
    + exists (log_received msg :: t). split; [|exact Hp].
      rewrite Ht. simpl. by rewrite <- app_assoc.
    + by rewrite Hsent.
    + rewrite Hrecv. simpl. unfold buffered. rewrite length_app. simpl. lia.
Qed.

Lemma run_at_most_once calls ctx :
  exists t, trace (run_proposals calls ctx) = trace ctx ++ t /\ decision_passes t <= 1.
Proof.
  revert ctx. induction calls as [|[msg d] calls IH]; intros ctx.
  - exists []. rewrite app_nil_r. split; [done|]. unfold decision_passes. simpl. lia.
  - cbn [run_proposals foldl fst snd].
    destruct (decide (length (buffered msg ctx) = length (sent_proposals (strategy ctx))))
      as [Hlen|Hne].
    + destruct (_handle_propose msg d ctx) as [ctx1 o] eqn:Hcall. cbn [fst].
      destruct (handle_propose_fired _ _ _ _ _ Hlen Hcall) as [(t & Ht & Hp) Hlists].
      destruct (run_overfull calls ctx1) as ((t' & Ht' & Hp') & _).
      { destruct o as [[]|e]; destruct Hlists as [-> ->]; simpl; [lia|].
        rewrite length_decide_all. lia. }
      exists ((log_received msg :: Log LogMakingDecision :: t) ++ t'). split.
      * unfold run_proposals in Ht'. rewrite Ht', Ht. by rewrite <- app_assoc.
      * rewrite decision_passes_app, Hp'.
        change (log_received msg :: Log LogMakingDecision :: t)
          with ([log_received msg; Log LogMakingDecision] ++ t).
        rewrite decision_passes_app, Hp. unfold decision_passes. simpl. lia.
    + rewrite handle_propose_waiting by done. cbn [fst].
      destruct (IH (add_trace [log_received msg]
                      (set_strategy
                         (set_received_proposals (buffered msg ctx) (strategy ctx)) ctx)))
        as (t & Ht & Hp).
      exists (log_received msg :: t). split; [|exact Hp].
      unfold run_proposals in Ht. rewrite Ht. simpl. by rewrite <- app_assoc.
Qed.

(** *** The proposal handler *)

(** C4 (pre-decline on arrival).  The dict appended for an incoming
    proposal carries DECLINE when the acceptability or the affordability
    check fails and an empty decision slot otherwise, whatever the barrier
    does next.  When the barrier does not fire, the handler returns with the
    buffer extended by exactly this dict.  When it fires, the fan-out runs
    on the buffer as the decision loop left it, and the loop leaves every
    slot that was already decided as it was. *)
Theorem pre_decline_on_arrival (msg : Msg) (d : nat) ctx :
  carpark_decision (new_carpark msg)
  = (if is_acceptable_proposal (proposal msg) && is_affordable_proposal (proposal msg)
     then None else Some DECLINE)
  /\ (length (buffered msg ctx) <> length (sent_proposals (strategy ctx)) ->
      snd (_handle_propose msg d ctx) = Returned tt
      /\ received_proposals (strategy (fst (_handle_propose msg d ctx)))
         = received_proposals (strategy ctx) ++ [new_carpark msg])
  /\ (length (buffered msg ctx) = length (sent_proposals (strategy ctx)) ->
      _handle_propose msg d ctx =
      _handle_propose_send
        (add_trace [log_received msg; Log LogMakingDecision]
           (set_strategy
              (set_received_proposals
                 (decide_all (received_proposals (strategy ctx) ++ [new_carpark msg]))
                 (strategy ctx))
              ctx)))
  /\ (forall i c p,
        (received_proposals (strategy ctx) ++ [new_carpark msg]) !! i = Some c ->
        carpark_decision c = Some p ->
        decide_all (received_proposals (strategy ctx) ++ [new_carpark msg]) !! i = Some c).
Proof.
  repeat split.
  - unfold new_carpark; simpl.
    by destruct (is_acceptable_proposal _), (is_affordable_proposal _).
  - by rewrite handle_propose_waiting.
  - by rewrite handle_propose_waiting.
  - intros Hlen. by rewrite handle_propose_eq, bool_decide_eq_true_2.
  - intros i c p Hi Hc. rewrite decide_all_lookup, Hi. simpl.
    unfold decide_if_pending. by rewrite Hc.
Qed.

(** C5 (reset).  A fan-out that completes leaves both the sent list and
    the received buffer empty, and so does every call of the proposal
    handler that ran the decision pass and returned. *)
Theorem reset_after_decision_pass :
  (forall ctx ctx',
      _handle_propose_send ctx = (ctx', Returned tt) ->
      sent_proposals (strategy ctx') = []
      /\ received_proposals (strategy ctx') = [])
  /\ (forall (msg : Msg) (d : nat) ctx ctx',
        length (buffered msg ctx) = length (sent_proposals (strategy ctx)) ->
        _handle_propose msg d ctx = (ctx', Returned tt) ->
        sent_proposals (strategy ctx') = []
        /\ received_proposals (strategy ctx') = []).
Proof.
  split.
  - intros ctx ctx'. rewrite handle_propose_send_eq.
    destruct (for_each _ _ _) as [ctx1 [[]|e]]; [|done].
    by intros [= <-].
  - intros msg d ctx ctx' Hlen Hcall.
    by destruct (handle_propose_fired _ _ _ _ _ Hlen Hcall) as [_ ?].
Qed.

(** C10 (an overfull round never completes).  When the received buffer
    is strictly longer than the sent list, no call in any run of
    consecutive proposal-handler calls runs the decision pass: the sent
    list stays as it is and the buffer grows by one with every call. *)
Theorem overfull_round_never_completes calls ctx :
  length (sent_proposals (strategy ctx)) < length (received_proposals (strategy ctx)) ->
  decision_passes (emitted ctx (run_proposals calls ctx)) = 0
  /\ sent_proposals (strategy (run_proposals calls ctx)) = sent_proposals (strategy ctx)
  /\ length (received_proposals (strategy (run_proposals calls ctx)))
     = length (received_proposals (strategy ctx)) + length calls.
Proof.
  intros Hlt. destruct (run_overfull calls ctx) as ((t & Ht & Hp) & Hsent & Hrecv); [lia|].
  by rewrite (emitted_app _ _ _ Ht).
Qed.

(** *** The fan-out *)

Lemma outbox_add_trace ctx ctx' (t : list Eff) :
  trace ctx' = trace ctx ++ t ->
  outbox ctx' =
  outbox ctx ++ omap (fun e => match e with PutMessage m => Some m | _ => None end) t.
Proof. unfold outbox. intros ->. apply omap_app. Qed.

Lemma outbox_of_replies (R : Carpark Description -> Out -> Prop) l replies :
  Forall2 R l replies ->
  omap (fun e : Eff => match e with PutMessage m => Some m | _ => None end)
    (concat (zip_with reply_effects l replies)) = replies.
Proof.
  induction 1 as [|c m l replies _ _ IH]; [done|].
  simpl. rewrite omap_app, IH. unfold reply_effects.
  by destruct (is_accept c).
Qed.

(** C7 (reply fan-out).  A fan-out that returns has handed the outbox
    exactly one reply per buffered proposal, in the order of arrival; each
    reply carries the decision of its proposal and targets its message.
    The trace shows the order of what was done for each proposal: the log
    line; for an accepted proposal the write of the terms, computed by the
    strategy from the proposal and its sender, to its dialogue; then the
    building of the reply by the dialogue; then the hand-over to the outbox.
    So the terms are attached before the reply is built, and nothing is
    written for a declined proposal; afterwards the dialogue of an accepted
    proposal holds these terms and the dialogue of any other proposal holds
    the terms it had before. *)
Theorem reply_fan_out ctx ctx' :
  _handle_propose_send ctx = (ctx', Returned tt) ->
  exists replies,
    Forall2 (reply_to (fipa_dialogues ctx)) (received_proposals (strategy ctx)) replies
    /\ outbox ctx' = outbox ctx ++ replies
    /\ trace ctx' =
       trace ctx
       ++ concat
            (zip_with
               (fun c m =>
                  Log (LogDecision (carpark_decision c) (last5 (carpark_sender c)))
                  :: (if bool_decide (carpark_decision c = Some ACCEPT)
                      then [SetTerms (dialogue_reference (carpark_message c))
                              (terms_from_proposal (proposal (carpark_message c))
                                 (carpark_sender c))]
                      else [])
                  ++ [BuildReply (dialogue_reference (carpark_message c)) m;
                      PutMessage m])
               (received_proposals (strategy ctx)) replies)
    /\ (forall c, c ∈ received_proposals (strategy ctx) ->
          terms <$> fipa_dialogues ctx' !! carpark_ref c =
          if is_accept c then Some (Some (carpark_terms c))
          else terms <$> fipa_dialogues ctx !! carpark_ref c).
Proof.
  rewrite handle_propose_send_eq.
  destruct (for_each _ _ _) as [ctx1 [[]|e]] eqn:Hloop; [|done].
  intros [= <-].
  destruct (send_loop_returned _ _ _ Hloop) as (replies & Hrep & Htr & _ & Hin & _).
  exists replies. repeat split; simpl.
  - exact Hrep.
  - rewrite (outbox_add_trace ctx (reset ctx1) _ Htr).
    by erewrite outbox_of_replies.
  - exact Htr.
  - intros c Hc. destruct (Hin c Hc) as (dlg & Hd & _ & Hfin).
    rewrite Hfin, Hd. unfold replied; simpl. by destruct (is_accept c).
Qed.

(** *** The search handler *)

(** C8 (empty search result).  A search result without agents changes
    neither the strategy (searching flag, sent list, received buffer) nor
    the dialogues, and hands nothing to the outbox: the handler logs one
    line and returns. *)
Theorem empty_search_result (oef_search_msg : OefSearchMessage) (d : nat) ctx :
  agents oef_search_msg = [] ->
  snd (_handle_search oef_search_msg d ctx) = Returned tt
  /\ strategy (fst (_handle_search oef_search_msg d ctx)) = strategy ctx
  /\ fipa_dialogues (fst (_handle_search oef_search_msg d ctx)) = fipa_dialogues ctx
  /\ outbox (fst (_handle_search oef_search_msg d ctx)) = outbox ctx
  /\ trace (fst (_handle_search oef_search_msg d ctx)) = trace ctx ++ [Log LogNoAgents].
Proof.
  intros Hnone. unfold _handle_search. rewrite Hnone. simpl.
  repeat split. unfold outbox; simpl. by rewrite omap_app, app_nil_r.
Qed.

(** *** The dispatch *)


(** *** What the decision pass guarantees *)

Lemma decide_if_pending_decided ch c :
  (carpark_decision c = None \/ carpark_decision c = Some DECLINE) ->
  carpark_decision (decide_if_pending ch c) = Some ACCEPT
  \/ carpark_decision (decide_if_pending ch c) = Some DECLINE.
Proof.
  unfold decide_if_pending, decide_carpark. intros [Hc|Hc]; rewrite Hc; simpl; [|by right].
  case_bool_decide; auto.
Qed.

(** Every proposal leaves the decision pass with ACCEPT or DECLINE. *)
Lemma decide_all_conservation rp :
  (forall c, c ∈ rp ->
     carpark_decision c = None \/ carpark_decision c = Some DECLINE) ->
  count_decision ACCEPT (decide_all rp) + count_decision DECLINE (decide_all rp)
  = length rp.
Proof.
  rewrite decide_all_map. generalize (get_cheapest_proposal (pending rp)) as ch.
  intros ch. induction rp as [|c rp IH]; intros Hdec; [done|].
  unfold count_decision in *. cbn [fmap list_fmap List.filter].
  specialize (IH (fun c' Hc' => Hdec c' (list_elem_of_further _ _ _ Hc'))).
  destruct (decide_if_pending_decided ch c (Hdec c (list_elem_of_here _ _))) as [Hc|Hc];
    rewrite Hc; simpl in *; lia.
Qed.

Lemma elem_of_pending rp i c :
  rp !! i = Some c -> carpark_decision c = None -> c ∈ pending rp.
Proof.
  intros Hi Hc. unfold pending, deref. apply list_elem_of_omap. exists i. split; [|done].
  apply elem_of_undecided_refs. unfold is_undecided. by rewrite Hi, Hc.
Qed.

Lemma NoDup_fmap_eq {A B} (f : A -> B) (l : list A) x y :
  NoDup (f <$> l) -> x ∈ l -> y ∈ l -> f x = f y -> x = y.
Proof.
  induction l as [|z l IH]; [by intros _ ?%elem_of_nil|].
  cbn [fmap list_fmap]. intros [Hz Hnd]%NoDup_cons [->|Hx]%elem_of_cons [->|Hy]%elem_of_cons Hf.
  - done.
  - destruct Hz. rewrite Hf. by apply list_elem_of_fmap_2.
  - destruct Hz. rewrite <- Hf. by apply list_elem_of_fmap_2.
  - by apply IH.
Qed.

(** When the pending proposals come from pairwise distinct senders and
    the strategy picks its cheapest among them, the pass accepts the
    cheapest and declines every other pending proposal. *)
Lemma decide_all_distinct_senders rp i c :
  NoDup (carpark_sender <$> pending rp) ->
  get_cheapest_proposal (pending rp) ∈ pending rp ->
  rp !! i = Some c ->
  carpark_decision c = None ->
  exists c', decide_all rp !! i = Some c'
    /\ (carpark_decision c' = Some ACCEPT <-> c = get_cheapest_proposal (pending rp))
    /\ (carpark_decision c' = Some DECLINE <-> c <> get_cheapest_proposal (pending rp)).
Proof.
  intros Hnd Hch Hi Hc. rewrite decide_all_lookup, Hi. simpl.
  eexists. split; [reflexivity|].
  unfold decide_if_pending, decide_carpark. rewrite Hc. simpl.
  pose proof (elem_of_pending _ _ _ Hi Hc) as Hin.
  case_bool_decide as Hs.
  - apply (NoDup_fmap_eq _ _ _ _ Hnd Hch Hin) in Hs. by split; split; intros.
  - split; split; try done; [intros -> | intros _ ->]; by destruct Hs.
Qed.

(** The pending proposals, as values, are the undecided entries of the
    buffer in arrival order. *)
Lemma pending_from (pre l : list (Carpark Description)) :
  omap (fun i => (pre ++ l) !! i)
    (filter (fun i => is_undecided (pre ++ l) i = true) (seq (length pre) (length l)))
  = filter (fun c => carpark_decision c = None) l.
Proof.
  revert pre. induction l as [|x l IH]; intros pre; [done|].
  cbn [length seq]. rewrite !filter_cons.
  assert (Hx : (pre ++ x :: l) !! length pre = Some x) by apply list_lookup_middle, eq_refl.
  specialize (IH (pre ++ [x])).
  rewrite <- app_assoc, length_app in IH. simpl in IH.
  rewrite Nat.add_1_r in IH.
  destruct (carpark_decision x) eqn:Hdec.
  - rewrite decide_False by (unfold is_undecided; by rewrite Hx, Hdec).
    rewrite decide_False by congruence. exact IH.
  - rewrite decide_True by (unfold is_undecided; by rewrite Hx, Hdec).
    rewrite decide_True by done.
    cbn [omap list_omap]. rewrite Hx. by rewrite <- IH.
Qed.

Lemma pending_filter rp : pending rp = filter (fun c => carpark_decision c = None) rp.
Proof. exact (pending_from [] rp). Qed.

Lemma count_accept_decided ch rp :
  (forall c, c ∈ rp ->
     carpark_decision c = None \/ carpark_decision c = Some DECLINE) ->
  count_decision ACCEPT (decide_if_pending ch <$> rp)
  = length (filter (fun c => carpark_sender ch = carpark_sender c)
              (filter (fun c => carpark_decision c = None) rp)).
Proof.
  induction rp as [|c rp IH]; intros Hdec; [done|].
  specialize (IH (fun c' Hc' => Hdec c' (list_elem_of_further _ _ _ Hc'))).
  unfold count_decision in *. cbn [fmap list_fmap List.filter].
  rewrite (filter_cons (fun c => carpark_decision c = None)).
  destruct (Hdec c (list_elem_of_here _ _)) as [Hc|Hc].
  - rewrite decide_True by exact Hc. rewrite filter_cons.
    destruct (decide (carpark_sender ch = carpark_sender c)) as [Hs|Hs].
    + assert (Hd : carpark_decision (decide_if_pending ch c) = Some ACCEPT).
      { unfold decide_if_pending, decide_carpark. rewrite Hc. simpl.
        by rewrite bool_decide_eq_true_2. }
      rewrite bool_decide_eq_true_2 by exact Hd. simpl. by rewrite IH.
    + assert (Hd : carpark_decision (decide_if_pending ch c) <> Some ACCEPT).
      { unfold decide_if_pending, decide_carpark. rewrite Hc. simpl.
        by rewrite bool_decide_eq_false_2. }
      rewrite bool_decide_eq_false_2 by exact Hd. exact IH.
  - rewrite decide_False by congruence.
    assert (Hd : carpark_decision (decide_if_pending ch c) <> Some ACCEPT).
    { unfold decide_if_pending. rewrite Hc. congruence. }
    rewrite bool_decide_eq_false_2 by exact Hd. exact IH.
Qed.

Lemma NoDup_fmap_filter_le {A B} `{EqDecision B} (f : A -> B) (s : B) (l : list A) :
  NoDup (f <$> l) -> length (filter (fun x => s = f x) l) <= 1.
Proof.
  induction l as [|x l IH]; [simpl; lia|].
  cbn [fmap list_fmap]. intros [Hx Hnd]%NoDup_cons. rewrite filter_cons.
  destruct (decide (s = f x)) as [->|Hne]; [|by apply IH].
  assert (Hnone : filter (fun y => f x = f y) l = []).
  { destruct (filter _ l) as [|y k] eqn:Hf; [done|]. exfalso.
    assert (Hy : y ∈ filter (fun y => f x = f y) l) by (rewrite Hf; apply list_elem_of_here).
    apply list_elem_of_filter in Hy as [Hfy Hy]. apply Hx. rewrite Hfy.
    by apply list_elem_of_fmap_2. }
  rewrite Hnone. simpl. lia.
Qed.

(** With pairwise distinct senders among the pending proposals, at most
    one proposal leaves the decision pass with ACCEPT. *)
Lemma decide_all_at_most_one_accept rp :
  (forall c, c ∈ rp ->
     carpark_decision c = None \/ carpark_decision c = Some DECLINE) ->
  NoDup (carpark_sender <$> pending rp) ->
  count_decision ACCEPT (decide_all rp) <= 1.
Proof.
  intros Hdec Hnd. rewrite decide_all_map, count_accept_decided by done.
  rewrite pending_filter in Hnd. by apply NoDup_fmap_filter_le.
Qed.

(** *** The search handler on a non-empty result *)

Lemma cfp_effects_app (q : Query) ref (l1 l2 : list Address) :
  (cfp_effects q ref (l1 ++ l2) : list Eff)
  = cfp_effects q ref l1 ++ cfp_effects q (ref + length l1) l2.
Proof.
  revert ref. induction l1 as [|cp l1 IH]; intros ref; simpl.
  - by rewrite Nat.add_0_r.
  - rewrite IH. by replace (S ref + length l1) with (ref + S (length l1)) by lia.
Qed.

Lemma cfp_messages_app (q : Query) ref (l1 l2 : list Address) :
  (cfp_messages q ref (l1 ++ l2) : list Out)
  = cfp_messages q ref l1 ++ cfp_messages q (ref + length l1) l2.
Proof.
  revert ref. induction l1 as [|cp l1 IH]; intros ref; simpl.
  - by rewrite Nat.add_0_r.
  - rewrite IH. by replace (S ref + length l1) with (ref + S (length l1)) by lia.
Qed.

Lemma outbox_cfp_effects (q : Query) ref (l : list Address) :
  omap (fun e : Eff => match e with PutMessage m => Some m | _ => None end)
    (cfp_effects q ref l) = cfp_messages q ref l.
Proof. revert ref. induction l as [|cp l IH]; intros ref; simpl; [done|]. by rewrite IH. Qed.

Lemma decision_passes_cfp (q : Query) ref (l : list Address) :
  decision_passes (cfp_effects q ref l : list Eff) = 0.
Proof. revert ref. induction l as [|cp l IH]; intros ref; [done|]. apply IH. Qed.

Lemma cfp_sent_nil q ctx : cfp_sent q [] ctx = ctx.
Proof.
  unfold cfp_sent, set_sent_proposals. simpl.
  by rewrite !app_nil_r, strategy_eta, context_eta.
Qed.

Lemma cfp_sent_app q (l1 l2 : list Address) ctx :
  cfp_sent q l2 (cfp_sent q l1 ctx) = cfp_sent q (l1 ++ l2) ctx.
Proof.
  unfold cfp_sent, set_sent_proposals. simpl.
  rewrite fmap_app, cfp_effects_app, length_app, length_fmap, <- !app_assoc.
  reflexivity.
Qed.

Lemma send_cfp_eq q (cp : Address) ctx :
  send_cfp q cp ctx =
  if bool_decide (cp = "" \/ cp = agent_address ctx)
  then (ctx, Raised InvalidCounterparty)
  else (cfp_sent q [cp] ctx, Returned tt).
Proof.
  unfold send_cfp, create, cfp_sent, cfp_message, cfp_dialogue. run.
  case_bool_decide; simpl; [done|]. by rewrite <- app_assoc.
Qed.

Lemma served_prefix self (cps : list Address) :
  exists rest, cps = served self cps ++ rest
               /\ (served self cps = cps <-> rest = []).
Proof.
  induction cps as [|cp l (rest & Hl & Hiff)]; simpl.
  - by exists [].
  - case_bool_decide.
    + exists (cp :: l). by split.
    + exists rest. split; [simpl; congruence|].
      rewrite <- Hiff. split; [by intros [= ?] | by intros ->].
Qed.

(** The loop serves the counterparties in order and stops at the first one
    that [create] refuses. *)
Lemma cfp_loop q (cps : list Address) ctx :
  for_each cps (send_cfp q) ctx =
  (cfp_sent q (served (agent_address ctx) cps) ctx,
   if bool_decide (served (agent_address ctx) cps = cps)
   then Returned tt else Raised InvalidCounterparty).
Proof.
  revert ctx. induction cps as [|cp l IH]; intros ctx.
  - simpl. by rewrite cfp_sent_nil.
  - cbn [for_each served]. unfold bind. rewrite send_cfp_eq.
    case_bool_decide as Hcp.
    + by rewrite cfp_sent_nil, bool_decide_eq_false_2.
    + rewrite IH, cfp_sent_app. simpl. f_equal.
      repeat case_bool_decide; congruence.
Qed.

Lemma handle_search_eq (oef_search_msg : OefSearchMessage) (d : nat) ctx :
  agents oef_search_msg <> [] ->
  _handle_search oef_search_msg d ctx =
  let cps := get_acceptable_counterparties (agents oef_search_msg) in
  let l := served (agent_address ctx) cps in
  if bool_decide (l = cps)
  then (add_trace [Log (LogCfpsSent (length cps))]
          (cfp_sent get_service_query cps (found oef_search_msg ctx)),
        Returned tt)
  else (cfp_sent get_service_query l (found oef_search_msg ctx),
        Raised InvalidCounterparty).
Proof.
  intros Hne. unfold _handle_search.
  rewrite bool_decide_eq_false_2 by (by destruct (agents oef_search_msg)).
  unfold bind at 1. unfold get_strategy. unfold bind at 1.
  assert (Hfound :
    (if is_stop_searching_on_result (strategy ctx)
     then bind (logger_info (LogFoundAgentsStopping (map last5 (agents oef_search_msg))))
            (fun _ => modify_strategy (set_is_searching false))
     else logger_info (LogFoundAgents (map last5 (agents oef_search_msg)))) ctx
    = (found oef_search_msg ctx, Returned tt)).
  { unfold found. destruct (is_stop_searching_on_result (strategy ctx)); run; done. }
  rewrite Hfound. unfold bind. rewrite cfp_loop.
  assert (Haddr : agent_address (found oef_search_msg ctx) = agent_address ctx).
  { unfold found. by destruct (is_stop_searching_on_result (strategy ctx)). }
  rewrite Haddr. simpl.
  case_bool_decide as Hall; [|done]. by rewrite Hall.
Qed.

Lemma cfp_messages_shape (q : Query) ref (cps : list Address) :
  Forall2 (fun cp (m : Out) =>
             performative m = CFP /\ to m = cp /\ query m = Some q
             /\ target_message m = None)
    cps (cfp_messages q ref cps).
Proof.
  revert ref. induction cps as [|cp l IH]; intros ref; simpl; constructor; auto.
Qed.

Lemma found_frame (oef_search_msg : OefSearchMessage) ctx :
  sent_proposals (strategy (found oef_search_msg ctx)) = sent_proposals (strategy ctx)
  /\ received_proposals (strategy (found oef_search_msg ctx))
     = received_proposals (strategy ctx)
  /\ fipa_dialogues (found oef_search_msg ctx) = fipa_dialogues ctx
  /\ outbox (found oef_search_msg ctx) = outbox ctx
  /\ exists line, trace (found oef_search_msg ctx) = trace ctx ++ [Log line]
                  /\ line <> LogMakingDecision.
Proof.
  unfold found, outbox.
  destruct (is_stop_searching_on_result (strategy ctx)); simpl;
    rewrite omap_app, app_nil_r; repeat split; eexists; split; done.
Qed.

(** X1 (a search result opens the round).  When a search result with
    agents is handled and the handler returns, the sent list has grown by
    the acceptable counterparties in their order, the outbox by exactly one
    CFP for each of them, in the same order and with the strategy's query,
    and one dialogue was opened for each; the received buffer is as it
    was. *)
Theorem search_opens_round (oef_search_msg : OefSearchMessage) (d : nat) ctx ctx' :
  agents oef_search_msg <> [] ->
  _handle_search oef_search_msg d ctx = (ctx', Returned tt) ->
  exists cfps,
    Forall2 (fun cp (m : Out) =>
               performative m = CFP /\ to m = cp /\ query m = Some get_service_query
               /\ target_message m = None)
      (get_acceptable_counterparties (agents oef_search_msg)) cfps
    /\ outbox ctx' = outbox ctx ++ cfps
    /\ sent_proposals (strategy ctx')
       = sent_proposals (strategy ctx)
         ++ get_acceptable_counterparties (agents oef_search_msg)
    /\ length (fipa_dialogues ctx')
       = length (fipa_dialogues ctx)
         + length (get_acceptable_counterparties (agents oef_search_msg))
    /\ received_proposals (strategy ctx') = received_proposals (strategy ctx).
Proof.
  intros Hne. rewrite handle_search_eq by done. cbv zeta.
  case_bool_decide as Hall; [|done]. intros [= <-].
  destruct (found_frame oef_search_msg ctx) as (Hs & Hr & Hd & Ho & _).
  exists (cfp_messages get_service_query (length (fipa_dialogues ctx))
            (get_acceptable_counterparties (agents oef_search_msg))).
  split; [apply cfp_messages_shape|]. simpl. rewrite Hs, Hr, Hd.
  repeat split.
  - unfold outbox in *. simpl. rewrite !omap_app, Ho, outbox_cfp_effects, Hd. simpl.
    by rewrite app_nil_r.
  - by rewrite length_app, length_fmap.
Qed.

(** X2 (sent entries and CFPs stay in step).  Whatever the outcome of the
    search handler on a result with agents, the counterparties it added to
    the sent list are a prefix of the acceptable counterparties, and the
    outbox gained one CFP for each entry added and none besides; the prefix
    is the whole list exactly when the handler returned. *)
Theorem search_sent_and_cfps_in_step (oef_search_msg : OefSearchMessage) (d : nat)
    ctx ctx' o :
  agents oef_search_msg <> [] ->
  _handle_search oef_search_msg d ctx = (ctx', o) ->
  exists done_ rest cfps,
    get_acceptable_counterparties (agents oef_search_msg) = done_ ++ rest
    /\ sent_proposals (strategy ctx') = sent_proposals (strategy ctx) ++ done_
    /\ outbox ctx' = outbox ctx ++ cfps
    /\ Forall2 (fun cp (m : Out) => performative m = CFP /\ to m = cp) done_ cfps
    /\ (o = Returned tt <-> rest = []).
Proof.
  intros Hne. rewrite handle_search_eq by done. cbv zeta.
  destruct (found_frame oef_search_msg ctx) as (Hs & _ & Hd & Ho & _).
  destruct (served_prefix (agent_address ctx)
              (get_acceptable_counterparties (agents oef_search_msg)))
    as (rest & Hsplit & Hiff).
  set (cps := get_acceptable_counterparties (agents oef_search_msg)) in *.
  assert (Hshape : forall l,
    Forall2 (fun cp (m : Out) => performative m = CFP /\ to m = cp) l
      (cfp_messages get_service_query (length (fipa_dialogues ctx)) l)).
  { intros l. eapply Forall2_impl; [apply cfp_messages_shape|].
    by intros cp m (? & ? & _). }
  case_bool_decide as Hall; intros [= <- <-].
  - exists cps, [], (cfp_messages get_service_query (length (fipa_dialogues ctx)) cps).
    rewrite app_nil_r. simpl. rewrite Hs. repeat split; try done.
    unfold outbox in *. simpl. rewrite !omap_app, Ho, outbox_cfp_effects, Hd. simpl.
    by rewrite app_nil_r.
  - exists (served (agent_address ctx) cps), rest,
      (cfp_messages get_service_query (length (fipa_dialogues ctx))
         (served (agent_address ctx) cps)).
    simpl. rewrite Hs. repeat split; try done.
    + unfold outbox in *. simpl. by rewrite !omap_app, Ho, outbox_cfp_effects, Hd.
    + intros Hrest. by apply Hiff in Hrest.
Qed.

(** X3 (the search flag).  On a result with agents the handler clears the
    searching flag when the strategy stops on a result and leaves it alone
    otherwise, and it does so before the first CFP: the flag has its new
    value whether the handler returns or raises.  The stop-on-result flag
    and the received buffer are never written, and no decision pass runs. *)
Theorem search_sets_flag_first (oef_search_msg : OefSearchMessage) (d : nat) ctx ctx' o :
  agents oef_search_msg <> [] ->
  _handle_search oef_search_msg d ctx = (ctx', o) ->
  is_searching (strategy ctx')
  = (if is_stop_searching_on_result (strategy ctx) then false
     else is_searching (strategy ctx))
  /\ is_stop_searching_on_result (strategy ctx')
     = is_stop_searching_on_result (strategy ctx)
  /\ received_proposals (strategy ctx') = received_proposals (strategy ctx)
  /\ decision_passes (emitted ctx ctx') = 0.
Proof.
  intros Hne. rewrite handle_search_eq by done. cbv zeta.
  assert (Hflags :
    is_searching (strategy (found oef_search_msg ctx))
    = (if is_stop_searching_on_result (strategy ctx) then false
       else is_searching (strategy ctx))
    /\ is_stop_searching_on_result (strategy (found oef_search_msg ctx))
       = is_stop_searching_on_result (strategy ctx)).
  { unfold found.
    destruct (is_stop_searching_on_result (strategy ctx)) eqn:Hstop; simpl;
      by rewrite ?Hstop. }
  destruct Hflags as [Hfl Hst].
  destruct (found_frame oef_search_msg ctx) as (_ & Hr & _ & _ & line & Ht & Hline).
  assert (Hpass : decision_passes [Log line : Eff] = 0).
  { unfold decision_passes. simpl. by destruct line. }
  case_bool_decide as Hall; intros [= <- <-]; simpl; rewrite Hr;
    repeat split; try done.
  - erewrite emitted_app; [|simpl; rewrite Ht, <- !app_assoc; reflexivity].
    rewrite !decision_passes_app, Hpass, decision_passes_cfp. done.
  - erewrite emitted_app; [|simpl; rewrite Ht, <- !app_assoc; reflexivity].
    rewrite !decision_passes_app, Hpass, decision_passes_cfp. done.
Qed.

(** *** Rounds of proposals *)

Lemma run_proposals_cons (msg : Msg) (d : nat) calls ctx :
  run_proposals ((msg, d) :: calls) ctx
  = run_proposals calls (fst (_handle_propose msg d ctx)).
Proof. reflexivity. Qed.

(** While fewer proposals have arrived than CFPs were sent, a run of the
    handler only appends to the buffer and to the log. *)
Lemma run_waiting calls ctx :
  length (received_proposals (strategy ctx)) + length calls
  < length (sent_proposals (strategy ctx)) ->
  run_proposals calls ctx =
  add_trace (received_lines calls)
    (set_strategy
       (set_received_proposals
          (received_proposals (strategy ctx)
           ++ ((fun call => new_carpark (fst call)) <$> calls))
          (strategy ctx))
       ctx).
Proof.
  revert ctx. induction calls as [|[msg d] calls IH]; intros ctx Hlt.
  - unfold add_trace, set_strategy, set_received_proposals. simpl.
    by rewrite !app_nil_r, strategy_eta, context_eta.
  - rewrite run_proposals_cons. simpl in Hlt.
    rewrite handle_propose_waiting
      by (unfold buffered; rewrite length_app; simpl; lia).
    cbn [fst].
    rewrite IH by (simpl; unfold buffered; rewrite length_app; simpl; lia).
    unfold add_trace, set_strategy, set_received_proposals, buffered, received_lines.
    simpl. by rewrite <- !app_assoc.
Qed.

Lemma decision_passes_received (calls : list (Msg * nat)) :
  decision_passes (received_lines calls : list Eff) = 0.
Proof. induction calls as [|call calls IH]; [done|]. exact IH. Qed.

Lemma outbox_received (calls : list (Msg * nat)) :
  omap (fun e : Eff => match e with PutMessage m => Some m | _ => None end)
    (received_lines calls) = [].
Proof. induction calls as [|call calls IH]; [done|]. exact IH. Qed.

(** X4 (an open round only accumulates).  As long as fewer proposals have
    arrived than CFPs were sent, a run of proposal-handler calls appends one
    dict per proposal to the buffer, in arrival order, and does nothing
    else: the sent list, the dialogues and the outbox are as before and no
    decision pass runs. *)
Theorem open_round_accumulates calls ctx :
  length (received_proposals (strategy ctx)) + length calls
  < length (sent_proposals (strategy ctx)) ->
  received_proposals (strategy (run_proposals calls ctx))
  = received_proposals (strategy ctx) ++ ((fun call => new_carpark (fst call)) <$> calls)
  /\ sent_proposals (strategy (run_proposals calls ctx)) = sent_proposals (strategy ctx)
  /\ fipa_dialogues (run_proposals calls ctx) = fipa_dialogues ctx
  /\ outbox (run_proposals calls ctx) = outbox ctx
  /\ decision_passes (emitted ctx (run_proposals calls ctx)) = 0.
Proof.
  intros Hlt. rewrite run_waiting by done. simpl. repeat split.
  - unfold outbox. simpl. by rewrite omap_app, outbox_received, app_nil_r.
  - erewrite emitted_app; [|reflexivity]. apply decision_passes_received.
Qed.

(** X5 (the round closes with the last awaited proposal).  When the
    buffer is short of the sent list by the number of proposals in a run
    plus one, the run leaves the barrier shut and the next proposal fires
    it: the decision pass runs exactly once in the whole sequence, on the
    buffer that holds the earlier entries followed by one dict per proposal
    in arrival order. *)
Theorem round_closes_with_last_proposal calls (msg : Msg) (d : nat) ctx :
  length (received_proposals (strategy ctx)) + length calls + 1
  = length (sent_proposals (strategy ctx)) ->
  decision_passes (emitted ctx (run_proposals calls ctx)) = 0
  /\ decision_passes (emitted ctx (run_proposals (calls ++ [(msg, d)]) ctx)) = 1
  /\ buffered msg (run_proposals calls ctx)
     = received_proposals (strategy ctx)
       ++ ((fun call => new_carpark (fst call)) <$> (calls ++ [(msg, d)]))
  /\ run_proposals (calls ++ [(msg, d)]) ctx
     = fst (_handle_propose_send (at_barrier msg (run_proposals calls ctx))).
Proof.
  intros Hlen.
  assert (Hrun := run_waiting calls ctx ltac:(lia)).
  assert (Hbuf : buffered msg (run_proposals calls ctx)
                 = received_proposals (strategy ctx)
                   ++ ((fun call => new_carpark (fst call)) <$> (calls ++ [(msg, d)]))).
  { rewrite Hrun. unfold buffered. simpl. by rewrite fmap_app, <- app_assoc. }
  assert (Hfire : length (buffered msg (run_proposals calls ctx))
                  = length (sent_proposals (strategy (run_proposals calls ctx)))).
  { rewrite Hbuf, Hrun. simpl. rewrite length_app, length_fmap, length_app. simpl. lia. }
  assert (Hlast : run_proposals (calls ++ [(msg, d)]) ctx
                  = fst (_handle_propose msg d (run_proposals calls ctx))).
  { unfold run_proposals. by rewrite foldl_app. }
  repeat split.
  - rewrite Hrun. erewrite emitted_app; [|reflexivity]. apply decision_passes_received.
  - rewrite Hlast.
    destruct (handle_propose_passes msg d (run_proposals calls ctx)) as (t & Ht & Hp).
    rewrite bool_decide_eq_true_2 in Hp by done.
    erewrite emitted_app; [|rewrite Ht, Hrun; simpl; rewrite <- app_assoc; reflexivity].
    by rewrite decision_passes_app, decision_passes_received, Hp.
  - exact Hbuf.
  - rewrite Hlast, handle_propose_eq, bool_decide_eq_true_2 by done. reflexivity.
Qed.

(** *** The decision pass within the handler *)

Lemma handle_propose_at_barrier (msg : Msg) (d : nat) ctx :
  length (buffered msg ctx) = length (sent_proposals (strategy ctx)) ->
  _handle_propose msg d ctx = _handle_propose_send (at_barrier msg ctx).
Proof. intros Hlen. by rewrite handle_propose_eq, bool_decide_eq_true_2. Qed.

Lemma decide_if_pending_fields ch c :
  carpark_sender (decide_if_pending ch c) = carpark_sender c
  /\ carpark_message (decide_if_pending ch c) = carpark_message c
  /\ is_Some (carpark_decision (decide_if_pending ch c)).
Proof.
  unfold decide_if_pending, decide_carpark.
  destruct (carpark_decision c) eqn:Hc; simpl; rewrite ?Hc; eauto.
Qed.

(** X6 (the pass fills every slot and nothing else).  When the barrier
    fires, the fan-out starts on a buffer in which every dict has a
    decision, so no reply is ever asked for with an empty performative; the
    senders and the messages of the dicts are the ones that were buffered,
    in the same order. *)
Theorem decision_pass_fills_every_slot (msg : Msg) (d : nat) ctx :
  length (buffered msg ctx) = length (sent_proposals (strategy ctx)) ->
  _handle_propose msg d ctx = _handle_propose_send (at_barrier msg ctx)
  /\ Forall (fun c => is_Some (carpark_decision c))
       (received_proposals (strategy (at_barrier msg ctx)))
  /\ carpark_sender <$> received_proposals (strategy (at_barrier msg ctx))
     = carpark_sender <$> buffered msg ctx
  /\ carpark_message <$> received_proposals (strategy (at_barrier msg ctx))
     = carpark_message <$> buffered msg ctx.
Proof.
  intros Hlen. split; [by apply handle_propose_at_barrier|].
  simpl. rewrite decide_all_map.
  generalize (get_cheapest_proposal (pending (buffered msg ctx))) as ch.
  generalize (buffered msg ctx) as rp. intros rp ch.
  induction rp as [|c rp (IH1 & IH2 & IH3)]; [by repeat split|].
  destruct (decide_if_pending_fields ch c) as (Hs & Hm & Hd).
  cbn [fmap list_fmap] in *. repeat split.
  - by constructor.
  - by rewrite Hs, IH2.
  - by rewrite Hm, IH3.
Qed.

Lemma undisturbed_buffered (msg : Msg) ctx :
  Forall undisturbed (received_proposals (strategy ctx)) ->
  Forall undisturbed (buffered msg ctx).
Proof.
  intros Hrp. unfold buffered. apply Forall_app. split; [done|].
  constructor; [|constructor]. split; [done|]. unfold new_carpark; simpl.
  destruct (negb _ || negb _); auto.
Qed.

(** X7 (who is accepted).  On a buffer whose slots were empty or DECLINE
    before the barrier fired, the pass marks ACCEPT exactly the pending
    dicts whose sender equals the sender of the strategy's cheapest
    proposal, and DECLINE every other dict. *)
Theorem accepted_iff_pending_with_cheapest_sender (msg : Msg) (d : nat) ctx i c :
  Forall undisturbed (received_proposals (strategy ctx)) ->
  length (buffered msg ctx) = length (sent_proposals (strategy ctx)) ->
  buffered msg ctx !! i = Some c ->
  _handle_propose msg d ctx = _handle_propose_send (at_barrier msg ctx)
  /\ exists c',
      received_proposals (strategy (at_barrier msg ctx)) !! i = Some c'
      /\ (carpark_decision c' = Some ACCEPT <->
          carpark_decision c = None
          /\ carpark_sender (get_cheapest_proposal (pending (buffered msg ctx)))
             = carpark_sender c)
      /\ (carpark_decision c' = Some DECLINE <->
          ~ (carpark_decision c = None
             /\ carpark_sender (get_cheapest_proposal (pending (buffered msg ctx)))
                = carpark_sender c)).
Proof.
  intros Hok Hlen Hi. split; [by apply handle_propose_at_barrier|].
  simpl. rewrite decide_all_lookup, Hi. simpl. eexists. split; [reflexivity|].
  apply undisturbed_buffered with (msg := msg) in Hok.
  rewrite Forall_forall in Hok.
  destruct (Hok c (list_elem_of_lookup_2 _ _ _ Hi)) as [_ [Hc|Hc]];
    unfold decide_if_pending, decide_carpark; rewrite Hc; simpl.
  - case_bool_decide as Hs; split; split; try done; tauto.
  - rewrite Hc. split; split; intuition congruence.
Qed.

(** X8 (the strategy's choice is accepted).  When the barrier fires and
    the proposal the strategy picks is one of the pending ones, that
    proposal is in the buffer of the fan-out with ACCEPT: a round with a
    pending proposal has a winner. *)
Theorem cheapest_is_accepted (msg : Msg) (d : nat) ctx :
  length (buffered msg ctx) = length (sent_proposals (strategy ctx)) ->
  get_cheapest_proposal (pending (buffered msg ctx)) ∈ pending (buffered msg ctx) ->
  _handle_propose msg d ctx = _handle_propose_send (at_barrier msg ctx)
  /\ set_decision ACCEPT (get_cheapest_proposal (pending (buffered msg ctx)))
     ∈ received_proposals (strategy (at_barrier msg ctx)).
Proof.
  intros Hlen Hch. split; [by apply handle_propose_at_barrier|]. simpl.
  set (ch := get_cheapest_proposal (pending (buffered msg ctx))) in *.
  rewrite pending_filter in Hch. apply list_elem_of_filter in Hch as [Hnone Hin].
  apply list_elem_of_lookup_1 in Hin as [i Hi].
  apply list_elem_of_lookup_2 with i. rewrite decide_all_lookup, Hi. simpl.
  unfold decide_if_pending, decide_carpark. rewrite Hnone.
  by rewrite bool_decide_eq_true_2.
Qed.

(** *** A round that closes *)

Lemma decide_all_no_pending rp :
  Forall (fun c => is_Some (carpark_decision c)) rp -> decide_all rp = rp.
Proof.
  intros Hall. rewrite decide_all_map.
  generalize (get_cheapest_proposal (pending rp)) as ch. intros ch.
  induction Hall as [|c rp [p Hc] _ IH]; [done|].
  cbn [fmap list_fmap]. unfold decide_if_pending at 1. rewrite Hc. by f_equal.
Qed.

Lemma decide_all_messages rp :
  carpark_message <$> decide_all rp = carpark_message <$> rp.
Proof.
  rewrite decide_all_map.
  generalize (get_cheapest_proposal (pending rp)) as ch. intros ch.
  induction rp as [|c rp IH]; [done|]. cbn [fmap list_fmap].
  destruct (decide_if_pending_fields ch c) as (_ & Hm & _). by rewrite Hm, IH.
Qed.

Lemma reply_targets (ds : list (FipaDialogue Terms)) l (replies : list Out) :
  Forall2 (reply_to ds) l replies ->
  target_message <$> replies = (fun c => Some (carpark_message c)) <$> l.
Proof.
  induction 1 as [|c m l replies (_ & _ & Ht & _) _ IH]; [done|].
  cbn [fmap list_fmap]. by rewrite Ht, IH.
Qed.

(** What a call that fired the barrier and returned has done. *)
Lemma handle_propose_closed (msg : Msg) (d : nat) ctx ctx' :
  length (buffered msg ctx) = length (sent_proposals (strategy ctx)) ->
  _handle_propose msg d ctx = (ctx', Returned tt) ->
  exists replies,
    Forall2 (reply_to (fipa_dialogues ctx)) (decide_all (buffered msg ctx)) replies
    /\ trace ctx' =
       trace ctx ++ [log_received msg; Log LogMakingDecision]
       ++ concat (zip_with reply_effects (decide_all (buffered msg ctx)) replies)
    /\ outbox ctx' = outbox ctx ++ replies
    /\ (forall c, c ∈ decide_all (buffered msg ctx) ->
          exists dlg, fipa_dialogues ctx !! carpark_ref c = Some dlg
                      /\ fipa_dialogues ctx' !! carpark_ref c = Some (replied c dlg))
    /\ (forall r, r ∉ carpark_ref <$> decide_all (buffered msg ctx) ->
          fipa_dialogues ctx' !! r = fipa_dialogues ctx !! r).
Proof.
  intros Hlen. rewrite handle_propose_at_barrier, handle_propose_send_eq by done.
  destruct (for_each _ _ _) as [ctx1 [[]|e]] eqn:Hloop; [|done].
  intros [= <-].
  destruct (send_loop_returned _ _ _ Hloop) as (replies & Hrep & Htr & _ & Hin & Hout).
  simpl in *. exists replies. repeat split.
  - exact Hrep.
  - by rewrite Htr, <- app_assoc.
  - unfold outbox. simpl. rewrite Htr, !omap_app. simpl.
    rewrite app_nil_r. f_equal. by eapply outbox_of_replies.
  - intros c Hc. destruct (Hin c Hc) as (dlg & ? & _ & ?). eauto.
  - exact Hout.
Qed.

Lemma no_terms_for_declined l (replies : list Out) :
  Forall (fun c => carpark_decision c = Some DECLINE) l ->
  List.filter is_set_terms (concat (zip_with reply_effects l replies) : list Eff) = [].
Proof.
  intros Hl. revert replies. induction Hl as [|c l Hc _ IH]; intros [|m replies]; try done.
  simpl. unfold is_accept. rewrite Hc. simpl. apply IH.
Qed.

(** X9 (a round without a winner).  When the barrier fires on a buffer in
    which every proposal was declined on arrival and the handler returns,
    every buffered proposal is answered with DECLINE, no terms are written
    and the terms of every dialogue are as before; the round is reset all
    the same. *)
Theorem round_without_winner (msg : Msg) (d : nat) ctx ctx' :
  length (buffered msg ctx) = length (sent_proposals (strategy ctx)) ->
  Forall (fun c => carpark_decision c = Some DECLINE) (buffered msg ctx) ->
  _handle_propose msg d ctx = (ctx', Returned tt) ->
  exists replies,
    outbox ctx' = outbox ctx ++ replies
    /\ length replies = length (buffered msg ctx)
    /\ Forall (fun m : Out => performative m = DECLINE) replies
    /\ List.filter is_set_terms (emitted ctx ctx') = []
    /\ (forall r, terms <$> fipa_dialogues ctx' !! r = terms <$> fipa_dialogues ctx !! r)
    /\ sent_proposals (strategy ctx') = []
    /\ received_proposals (strategy ctx') = [].
Proof.
  intros Hlen Hdec Hcall.
  destruct (handle_propose_closed _ _ _ _ Hlen Hcall)
    as (replies & Hrep & Htr & Hout & Hin & Hother).
  assert (Hsame : decide_all (buffered msg ctx) = buffered msg ctx).
  { apply decide_all_no_pending. eapply Forall_impl; [exact Hdec|].
    intros c Hc. rewrite Hc. eauto. }
  rewrite Hsame in *.
  exists replies. split; [exact Hout|]. split; [symmetry; by eapply Forall2_length|].
  split; [|split; [|split]].
  - clear -Hrep Hdec. induction Hrep as [|c m l replies (Hp & _) _ IH]; [done|].
    apply Forall_cons in Hdec as [Hc Hdec]. constructor; [|by apply IH].
    rewrite Hc in Hp. by injection Hp.
  - erewrite emitted_app; [|exact Htr]. simpl. by apply no_terms_for_declined.
  - intros r. destruct (decide (r ∈ carpark_ref <$> buffered msg ctx)) as [Hr|Hr].
    + apply list_elem_of_fmap in Hr as (c & -> & Hc).
      destruct (Hin c Hc) as (dlg & Hd & Hd'). rewrite Hd, Hd'. simpl.
      rewrite Forall_forall in Hdec. unfold is_accept. by rewrite (Hdec c Hc).
    + by rewrite Hother.
  - by destruct (handle_propose_fired _ _ _ _ _ Hlen Hcall) as [_ ?].
Qed.

(** X10 (as many replies as CFPs).  A call that fires the barrier and
    returns hands the outbox exactly as many replies as there were entries
    in the sent list, one for each buffered proposal and targeted at its
    message, in arrival order. *)
Theorem replies_match_sent (msg : Msg) (d : nat) ctx ctx' :
  length (buffered msg ctx) = length (sent_proposals (strategy ctx)) ->
  _handle_propose msg d ctx = (ctx', Returned tt) ->
  exists replies,
    outbox ctx' = outbox ctx ++ replies
    /\ length replies = length (sent_proposals (strategy ctx))
    /\ target_message <$> replies
       = (fun c => Some (carpark_message c)) <$> buffered msg ctx.
Proof.
  intros Hlen Hcall.
  destruct (handle_propose_closed _ _ _ _ Hlen Hcall) as (replies & Hrep & _ & Hout & _).
  exists replies. split; [exact Hout|]. split.
  - rewrite <- Hlen, <- (length_decide_all (buffered msg ctx)).
    symmetry. by eapply Forall2_length.
  - rewrite (reply_targets _ _ _ Hrep).
    change (fun c : Carpark Description => Some (carpark_message c))
      with (Some ∘ (carpark_message (Description := Description))).
    by rewrite !list_fmap_compose, decide_all_messages.
Qed.

(** X11 (a failed fan-out wedges the round).  The handler raises only
    after the barrier fired.  When it does, the two assignments that close
    the round are not reached: the sent list is as before and the buffer
    keeps the decided dicts, so the buffer is as long as the sent list and
    no later run of proposals fires the barrier again. *)
Theorem failed_fan_out_wedges_round (msg : Msg) (d : nat) ctx ctx' e :
  _handle_propose msg d ctx = (ctx', Raised e) ->
  length (buffered msg ctx) = length (sent_proposals (strategy ctx))
  /\ sent_proposals (strategy ctx') = sent_proposals (strategy ctx)
  /\ received_proposals (strategy ctx') = decide_all (buffered msg ctx)
  /\ forall calls, decision_passes (emitted ctx' (run_proposals calls ctx')) = 0.
Proof.
  intros Hcall.
  destruct (decide (length (buffered msg ctx) = length (sent_proposals (strategy ctx))))
    as [Hlen|Hne]; [|by rewrite handle_propose_waiting in Hcall].
  destruct (handle_propose_fired _ _ _ _ _ Hlen Hcall) as [_ [Hs Hr]].
  repeat split; try done.
  intros calls. destruct (run_overfull calls ctx') as ((t & Ht & Hp) & _).
  { rewrite Hs, Hr, length_decide_all. lia. }
  by rewrite (emitted_app _ _ _ Ht).
Qed.

(** X12 (the proposal handler leaves the search alone).  Whatever its
    outcome, a call of the proposal handler changes neither the searching
    flag nor the stop-on-result flag nor the agent's address. *)
Theorem propose_keeps_search_flags (msg : Msg) (d : nat) ctx ctx' o :
  _handle_propose msg d ctx = (ctx', o) ->
  is_searching (strategy ctx') = is_searching (strategy ctx)
  /\ is_stop_searching_on_result (strategy ctx')
     = is_stop_searching_on_result (strategy ctx)
  /\ agent_address ctx' = agent_address ctx.
Proof.
  rewrite handle_propose_eq. case_bool_decide as Hlen.
  - rewrite handle_propose_send_eq.
    destruct (for_each _ _ _) as [ctx1 o1] eqn:Hloop.
    apply send_loop_frame in Hloop as (Hs & Ha & _). simpl in *.
    destruct o1 as [[]|e1]; intros [= <- <-]; simpl; rewrite Hs, Ha; done.
  - by intros [= <- <-].
Qed.

(** X13 (between rounds no dict is accepted).  If every buffered dict has
    the sender of its message and an empty or DECLINE slot, the same holds
    after every call of the proposal handler that returns. *)
Theorem returned_call_keeps_buffer_undisturbed (msg : Msg) (d : nat) ctx ctx' :
  Forall undisturbed (received_proposals (strategy ctx)) ->
  _handle_propose msg d ctx = (ctx', Returned tt) ->
  Forall undisturbed (received_proposals (strategy ctx')).
Proof.
  intros Hok Hcall.
  destruct (decide (length (buffered msg ctx) = length (sent_proposals (strategy ctx))))
    as [Hlen|Hne].
  - destruct (handle_propose_fired _ _ _ _ _ Hlen Hcall) as [_ [_ ->]]. constructor.
  - rewrite handle_propose_waiting in Hcall by done. injection Hcall as <-.
    simpl. by apply undisturbed_buffered.
Qed.

(** *** The slice used in the log lines *)

Lemma substring_whole (s : string) (m : nat) :
  String.length s <= m -> String.substring 0 m s = s.
Proof.
  revert m. induction s as [|a s IH]; intros [|m] Hm; simpl in *; try done; try lia.
  f_equal. apply IH. lia.
Qed.

Lemma substring_tail (n : nat) (s : string) :
  n <= String.length s ->
  exists p, s = String.append p (String.substring n (String.length s - n) s)
            /\ String.length p = n.
Proof.
  revert s. induction n as [|n IH]; intros s Hn.
  - exists EmptyString. rewrite Nat.sub_0_r, substring_whole by done. done.
  - destruct s as [|a s]; simpl in Hn; [lia|].
    destruct (IH s ltac:(lia)) as (p & Hp & Hlen).
    exists (String a p). simpl. split; [|by rewrite Hlen].
    rewrite Hp at 1. reflexivity.
Qed.

(** X14 (the slice [s[-5:]]).  The slice is a suffix of the address, five
    characters long when the address has at least five and the whole
    address otherwise; it is defined for every address, the empty one
    included. *)
Theorem last5_is_suffix (s : string) :
  (exists p, s = String.append p (last5 s))
  /\ String.length (last5 s) = Nat.min 5 (String.length s)
  /\ (String.length s <= 5 -> last5 s = s).
Proof.
  unfold last5.
  destruct (le_lt_dec (String.length s) 5) as [Hle|Hgt].
  - replace (String.length s - 5) with 0 by lia.
    rewrite substring_whole by done. repeat split; [by exists EmptyString | lia].
  - destruct (substring_tail (String.length s - 5) s ltac:(lia)) as (p & Hp & Hlen).
    replace (String.length s - (String.length s - 5)) with 5 in Hp by lia.
    split; [by exists p|]. split; [|lia].
    assert (Happ : forall a b, String.length (String.append a b)
                               = String.length a + String.length b).
    { intros a b. induction a as [|x a IHa]; simpl; [done|]. by rewrite IHa. }
    apply (f_equal String.length) in Hp. rewrite Happ, Hlen in Hp. lia.
Qed.

(** *** Search results in a row *)

Lemma search_returned_lists (oef_search_msg : OefSearchMessage) (d : nat) ctx ctx' :
  agents oef_search_msg <> [] ->
  _handle_search oef_search_msg d ctx = (ctx', Returned tt) ->
  sent_proposals (strategy ctx')
  = sent_proposals (strategy ctx) ++ get_acceptable_counterparties (agents oef_search_msg)
  /\ received_proposals (strategy ctx') = received_proposals (strategy ctx)
  /\ length (outbox ctx')
     = length (outbox ctx)
       + length (get_acceptable_counterparties (agents oef_search_msg)).
Proof.
  intros Hne. rewrite handle_search_eq by done. cbv zeta.
  case_bool_decide as Hall; [|done]. intros [= <-].
  destruct (found_frame oef_search_msg ctx) as (Hs & Hr & Hd & Ho & _).
  simpl. rewrite Hs, Hr. repeat split.
  unfold outbox in *. simpl. rewrite !omap_app, Ho, outbox_cfp_effects. simpl.
  rewrite app_nil_r, length_app. f_equal.
  symmetry. eapply Forall2_length, cfp_messages_shape.
Qed.

(** X15 (search results accumulate).  Two search results handled one
    after the other extend the same round: the sent list holds the
    acceptable counterparties of the first followed by those of the second,
    repeated entries included, one CFP went out for each entry, and the
    received buffer is untouched, so the barrier now waits for as many
    proposals as both results together named. *)
Theorem search_results_accumulate (m1 m2 : OefSearchMessage) (d1 d2 : nat)
    ctx ctx1 ctx2 :
  agents m1 <> [] ->
  agents m2 <> [] ->
  _handle_search m1 d1 ctx = (ctx1, Returned tt) ->
  _handle_search m2 d2 ctx1 = (ctx2, Returned tt) ->
  sent_proposals (strategy ctx2)
  = sent_proposals (strategy ctx)
    ++ get_acceptable_counterparties (agents m1)
    ++ get_acceptable_counterparties (agents m2)
  /\ received_proposals (strategy ctx2) = received_proposals (strategy ctx)
  /\ length (outbox ctx2)
     = length (outbox ctx)
       + length (get_acceptable_counterparties (agents m1))
       + length (get_acceptable_counterparties (agents m2)).
Proof.
  intros Hne1 Hne2 H1 H2.
  destruct (search_returned_lists _ _ _ _ Hne1 H1) as (Hs1 & Hr1 & Ho1).
  destruct (search_returned_lists _ _ _ _ Hne2 H2) as (Hs2 & Hr2 & Ho2).
  rewrite Hs2, Hs1, Hr2, Hr1, Ho2, Ho1, <- app_assoc. done.
Qed.

(** *** The barrier over runs of both handlers *)

Lemma handle_search_passes (oef_search_msg : OefSearchMessage) (d : nat) ctx :
  exists t, trace (fst (_handle_search oef_search_msg d ctx)) = trace ctx ++ t
            /\ decision_passes t = 0.
Proof.
  destruct (decide (agents oef_search_msg = [])) as [Hnone|Hne].
  - unfold _handle_search. rewrite Hnone. simpl. by eexists.
  - rewrite handle_search_eq by done. cbv zeta.
    destruct (found_frame oef_search_msg ctx) as (_ & _ & _ & _ & line & Ht & Hline).
    assert (Hpass : decision_passes [Log line : Eff] = 0).
    { unfold decision_passes. simpl. by destruct line. }
    case_bool_decide as Hall; simpl; rewrite Ht, <- !app_assoc;
      eexists; (split; [reflexivity|]);
      rewrite !decision_passes_app, Hpass, decision_passes_cfp; done.
Qed.

Lemma history_lookup calls ctx i (s : Step Description Query Terms) :
  history calls ctx !! i = Some s -> s = step_of (call s) (before s).
Proof.
  revert ctx i. induction calls as [|c l IH]; intros ctx i; [done|].
  destruct i as [|i]; simpl.
  - by intros [= <-].
  - apply IH.
Qed.

(** A call that ran the decision pass and returned was a proposal that
    closed its round. *)
Lemma fired_returned_resets (s : Step Description Query Terms) :
  s = step_of (call s) (before s) ->
  fired s -> outcome s = Returned tt -> is_reset (after s).
Proof.
  intros Hs. rewrite Hs. unfold fired, step_of. simpl.
  destruct (call s) as [m d|m d]; simpl.
  - destruct (handle_search_passes m d (before s)) as (t & Ht & Hp).
    rewrite (emitted_app _ _ _ Ht), Hp. lia.
  - destruct (handle_propose_passes m d (before s)) as (t & Ht & Hp).
    rewrite (emitted_app _ _ _ Ht), Hp.
    case_bool_decide as Hlen; [|lia]. intros _ Hret.
    destruct (_handle_propose m d (before s)) as [ctx' o] eqn:Hcall.
    simpl in *. subst o.
    by destruct (handle_propose_fired _ _ _ _ _ Hlen Hcall) as [_ ?].
Qed.


End Proofs.

(** * The handlers at concrete inputs *)

Module Scenarios.

Import CostStrategy.

#[local] Existing Instance rich.

(** P5: pending proposals with costs A:15, B:9, C:11, all acceptable and
    affordable; B is accepted, A and C are declined. *)
Example p5_deterministic_winner :
  carpark_decision <$>
    decide_all (new_carpark <$> [propose "A" 0 15; propose "B" 1 9; propose "C" 2 11])
  = [Some DECLINE; Some ACCEPT; Some DECLINE].
Proof. vm_compute. reflexivity. Qed.

(** P6: the same proposals with a budget of 5; none is affordable and the
    round ends with three declines. *)
Example p6_no_pending_no_winner :
  carpark_decision <$>
    decide_all (SP := policy 5)
      (new_carpark (SP := policy 5)
         <$> [propose "A" 0 15; propose "B" 1 9; propose "C" 2 11])
  = [Some DECLINE; Some DECLINE; Some DECLINE].
Proof. vm_compute. reflexivity. Qed.

(** The scenario of the spec: the search finds X, Y, Z; proposals arrive
    from Y (9), X (15, over the budget of 12) and Z (11). *)
Example spec_scenario :
  let searched :=
    fst (_handle_search (SP := policy 12)
           {| agents := ["agent_X"; "agent_Y"; "agent_Z"] |} 0 fresh) in
  let done_ :=
    foldl (fun c m => fst (on_proposal_received (SP := policy 12) m c)) searched
      [propose "agent_Y" 1 9; propose "agent_X" 0 15; propose "agent_Z" 2 11] in
  sent_proposals (strategy searched) = ["agent_X"; "agent_Y"; "agent_Z"]
  /\ performatives done_ =
     [(CFP, "agent_X"); (CFP, "agent_Y"); (CFP, "agent_Z");
      (ACCEPT, "agent_Y"); (DECLINE, "agent_X"); (DECLINE, "agent_Z")]
  /\ sent_proposals (strategy done_) = []
  /\ received_proposals (strategy done_) = [].
Proof. vm_compute. repeat split. Qed.

(** C2 (conservation, at most one accept), at an input where the handler
    breaks it.  Two search results name the same agent before its
    proposals arrive, so the round has two dialogues with agent_X.  Both
    proposals are pending at the barrier; the loop compares senders, so
    both are marked ACCEPT and two ACCEPT replies leave the outbox in one
    decision pass. *)
Theorem two_accepts_in_one_round :
  let searched :=
    fst (_handle_search {| agents := ["agent_X"] |} 0
           (fst (_handle_search {| agents := ["agent_X"] |} 0 fresh))) in
  let done_ :=
    foldl (fun c m => fst (on_proposal_received m c)) searched
      [propose "agent_X" 0 9; propose "agent_X" 1 15] in
  let awaited := in_round ["agent_X"; "agent_X"] [awaiting "agent_X"; awaiting "agent_X"] in
  let first := fst (_handle_propose (propose "agent_X" 0 9) 0 awaited) in
  let decided := decide_all (buffered (propose "agent_X" 1 15) first) in
  sent_proposals (strategy searched) = ["agent_X"; "agent_X"]
  /\ performatives done_ =
     [(CFP, "agent_X"); (CFP, "agent_X"); (ACCEPT, "agent_X"); (ACCEPT, "agent_X")]
  /\ decision_passes (trace done_) = 1
  /\ count_decision ACCEPT decided = 2
  /\ count_decision DECLINE decided = 0
  /\ _handle_propose (propose "agent_X" 1 15) 1 first
     = (fst (_handle_propose (propose "agent_X" 1 15) 1 first), Returned tt)
  /\ performatives (fst (_handle_propose (propose "agent_X" 1 15) 1 first))
     = [(ACCEPT, "agent_X"); (ACCEPT, "agent_X")].
Proof. vm_compute. repeat split. Qed.

(** C3 (the winner is the cheapest pending proposal), at an input where
    the handler breaks it.  Two pending proposals of one sender, with
    costs 9 and 15: the strategy's cheapest is the first, yet the loop
    marks the second ACCEPT as well instead of DECLINE. *)
Theorem same_sender_both_accepted :
  let rp := new_carpark <$> [propose "agent_X" 0 9; propose "agent_X" 1 15] in
  pending rp = rp
  /\ get_cheapest_proposal (pending rp) = new_carpark (propose "agent_X" 0 9)
  /\ decide_all rp =
     [set_decision ACCEPT (new_carpark (propose "agent_X" 0 9));
      set_decision ACCEPT (new_carpark (propose "agent_X" 1 15))].
Proof. vm_compute. repeat split. Qed.

(** *** The theorems at concrete inputs *)



(** A proposal over the budget: it is buffered with DECLINE while the
    round is open, and it keeps DECLINE when it closes the round. *)
Lemma pre_decline_on_arrival_witness :
  length (buffered (propose "agent_X" 0 150) two_sent)
  <> length (sent_proposals (strategy two_sent))
  /\ carpark_decision (new_carpark (propose "agent_X" 0 150)) = Some DECLINE
  /\ received_proposals
       (strategy (fst (_handle_propose (propose "agent_X" 0 150) 0 two_sent)))
     = received_proposals (strategy two_sent) ++ [new_carpark (propose "agent_X" 0 150)]
  /\ decide_all
       (received_proposals (strategy one_sent) ++ [new_carpark (propose "agent_X" 0 150)])
       !! 0
     = Some (new_carpark (propose "agent_X" 0 150)).
Proof.
  assert (Hne : length (buffered (propose "agent_X" 0 150) two_sent)
                <> length (sent_proposals (strategy two_sent)))
    by (vm_compute; lia).
  destruct (pre_decline_on_arrival (propose "agent_X" 0 150) 0 two_sent)
    as (Hdec & Hwait & _ & _).
  destruct (pre_decline_on_arrival (propose "agent_X" 0 150) 0 one_sent)
    as (_ & _ & _ & Hkeep).
  split; [exact Hne|]. split; [exact Hdec|]. split; [exact (proj2 (Hwait Hne))|].
  exact (Hkeep 0 _ DECLINE eq_refl eq_refl).
Defined.

(** A decided round is answered and reset; a proposal that closes a round
    leaves both lists empty. *)
Lemma reset_after_decision_pass_witness :
  _handle_propose_send decided_round
  = (fst (_handle_propose_send decided_round), Returned tt)
  /\ sent_proposals (strategy (fst (_handle_propose_send decided_round))) = []
  /\ received_proposals (strategy (fst (_handle_propose_send decided_round))) = []
  /\ length (buffered (propose "agent_X" 0 9) one_sent)
     = length (sent_proposals (strategy one_sent))
  /\ sent_proposals
       (strategy (fst (_handle_propose (propose "agent_X" 0 9) 0 one_sent))) = []
  /\ received_proposals
       (strategy (fst (_handle_propose (propose "agent_X" 0 9) 0 one_sent))) = [].
Proof.
  assert (Hsend : _handle_propose_send decided_round
                  = (fst (_handle_propose_send decided_round), Returned tt))
    by (vm_compute; reflexivity).
  assert (Hlen : length (buffered (propose "agent_X" 0 9) one_sent)
                 = length (sent_proposals (strategy one_sent)))
    by reflexivity.
  assert (Hcall : _handle_propose (propose "agent_X" 0 9) 0 one_sent
                  = (fst (_handle_propose (propose "agent_X" 0 9) 0 one_sent), Returned tt))
    by (vm_compute; reflexivity).
  destruct (proj1 reset_after_decision_pass _ _ Hsend) as [Hs Hr].
  split; [exact Hsend|]. split; [exact Hs|]. split; [exact Hr|]. split; [exact Hlen|].
  exact (proj2 reset_after_decision_pass _ _ _ _ Hlen Hcall).
Defined.


(** The decided round is answered with one reply per proposal; the terms
    of agent_Y are written before its ACCEPT is built, and nothing is
    written for agent_X. *)
Lemma reply_fan_out_witness :
  _handle_propose_send decided_round
  = (fst (_handle_propose_send decided_round), Returned tt)
  /\ emitted decided_round (fst (_handle_propose_send decided_round))
     = [Log (LogDecision (Some ACCEPT) "ent_Y");
        SetTerms 1 ("agent_Y", 9%Z);
        BuildReply 1 accept_Y; PutMessage accept_Y;
        Log (LogDecision (Some DECLINE) "ent_X");
        BuildReply 0 decline_X; PutMessage decline_X].
Proof.
  assert (Hcall : _handle_propose_send decided_round
                  = (fst (_handle_propose_send decided_round), Returned tt))
    by (vm_compute; reflexivity).
  split; [exact Hcall|].
  destruct (reply_fan_out _ _ Hcall) as (replies & _ & Hout & Htr & _).
  assert (Hreplies : replies = [accept_Y; decline_X]).
  { vm_compute in Hout. by rewrite <- Hout. }
  subst replies. unfold emitted. rewrite Htr. reflexivity.
Defined.

(** An empty search result in the middle of a round. *)
Lemma empty_search_result_witness :
  agents {| agents := [] |} = []
  /\ strategy (fst (_handle_search {| agents := [] |} 0 one_sent)) = strategy one_sent
  /\ outbox (fst (_handle_search {| agents := [] |} 0 one_sent)) = outbox one_sent.
Proof.
  destruct (empty_search_result {| agents := [] |} 0 one_sent eq_refl)
    as (_ & Hs & _ & Ho & _).
  split; [reflexivity|]. split; [exact Hs | exact Ho].
Defined.

(** After a proposal that no CFP asked for, two more proposals arrive. *)
Lemma overfull_round_never_completes_witness :
  length (sent_proposals (strategy overfull))
  < length (received_proposals (strategy overfull))
  /\ decision_passes
       (emitted overfull
          (run_proposals [(propose "agent_Y" 1 9, 1); (propose "agent_Z" 2 11, 2)] overfull))
     = 0.
Proof.
  assert (Hlt : length (sent_proposals (strategy overfull))
                < length (received_proposals (strategy overfull)))
    by (vm_compute; lia).
  split; [exact Hlt|].
  exact (proj1 (overfull_round_never_completes
                  [(propose "agent_Y" 1 9, 1); (propose "agent_Z" 2 11, 2)] overfull Hlt)).
Defined.

(** *** Further theorems at concrete inputs *)

(** The search finds agent_X and agent_Y. *)
Lemma search_opens_round_witness :
  agents two_agents <> []
  /\ _handle_search two_agents 0 fresh
     = (fst (_handle_search two_agents 0 fresh), Returned tt)
  /\ sent_proposals (strategy (fst (_handle_search two_agents 0 fresh)))
     = sent_proposals (strategy fresh) ++ get_acceptable_counterparties (agents two_agents).
Proof.
  assert (Hne : agents two_agents <> []) by discriminate.
  assert (Hcall : _handle_search two_agents 0 fresh
                  = (fst (_handle_search two_agents 0 fresh), Returned tt))
    by (vm_compute; reflexivity).
  destruct (search_opens_round _ _ _ _ Hne Hcall) as (cfps & _ & _ & Hs & _).
  split; [exact Hne|]. split; [exact Hcall | exact Hs].
Defined.

(** The search names the agent itself after agent_X: the handler raises
    with one entry sent and one CFP out. *)
Lemma search_sent_and_cfps_in_step_witness :
  agents with_self <> []
  /\ _handle_search with_self 0 fresh
     = (fst (_handle_search with_self 0 fresh), Raised InvalidCounterparty)
  /\ exists done_ rest cfps,
      get_acceptable_counterparties (agents with_self) = done_ ++ rest
      /\ sent_proposals (strategy (fst (_handle_search with_self 0 fresh)))
         = sent_proposals (strategy fresh) ++ done_
      /\ outbox (fst (_handle_search with_self 0 fresh)) = outbox fresh ++ cfps
      /\ Forall2 (fun cp (m : OutMessage Z string) => performative m = CFP /\ to m = cp)
           done_ cfps
      /\ (Raised InvalidCounterparty = Returned tt <-> rest = []).
Proof.
  assert (Hne : agents with_self <> []) by discriminate.
  assert (Hcall : _handle_search with_self 0 fresh
                  = (fst (_handle_search with_self 0 fresh), Raised InvalidCounterparty))
    by (vm_compute; reflexivity).
  split; [exact Hne|]. split; [exact Hcall|].
  exact (search_sent_and_cfps_in_step _ _ _ _ _ Hne Hcall).
Defined.

Lemma search_sets_flag_first_witness :
  agents with_self <> []
  /\ _handle_search with_self 0 one_sent
     = (fst (_handle_search with_self 0 one_sent), Raised InvalidCounterparty)
  /\ is_searching (strategy (fst (_handle_search with_self 0 one_sent))) = false.
Proof.
  assert (Hne : agents with_self <> []) by discriminate.
  assert (Hcall : _handle_search with_self 0 one_sent
                  = (fst (_handle_search with_self 0 one_sent), Raised InvalidCounterparty))
    by (vm_compute; reflexivity).
  split; [exact Hne|]. split; [exact Hcall|].
  exact (proj1 (search_sets_flag_first _ _ _ _ _ Hne Hcall)).
Defined.

Lemma open_round_accumulates_witness :
  length (received_proposals (strategy two_sent))
  + length [(propose "agent_X" 0 9, 0)]
  < length (sent_proposals (strategy two_sent))
  /\ received_proposals (strategy (run_proposals [(propose "agent_X" 0 9, 0)] two_sent))
     = received_proposals (strategy two_sent)
       ++ ((fun call => new_carpark (fst call)) <$> [(propose "agent_X" 0 9, 0)]).
Proof.
  assert (Hlt : length (received_proposals (strategy two_sent))
                + length [(propose "agent_X" 0 9, 0)]
                < length (sent_proposals (strategy two_sent)))
    by (vm_compute; lia).
  split; [exact Hlt|].
  exact (proj1 (open_round_accumulates _ _ Hlt)).
Defined.

Lemma round_closes_with_last_proposal_witness :
  length (received_proposals (strategy two_sent))
  + length [(propose "agent_X" 0 9, 0)] + 1
  = length (sent_proposals (strategy two_sent))
  /\ decision_passes
       (emitted two_sent
          (run_proposals ([(propose "agent_X" 0 9, 0)] ++ [(propose "agent_Y" 1 11, 1)])
             two_sent))
     = 1.
Proof.
  assert (Hlen : length (received_proposals (strategy two_sent))
                 + length [(propose "agent_X" 0 9, 0)] + 1
                 = length (sent_proposals (strategy two_sent)))
    by reflexivity.
  split; [exact Hlen|].
  exact (proj1 (proj2 (round_closes_with_last_proposal
                         [(propose "agent_X" 0 9, 0)] (propose "agent_Y" 1 11) 1
                         two_sent Hlen))).
Defined.

Lemma decision_pass_fills_every_slot_witness :
  length (buffered (propose "agent_X" 0 9) one_sent)
  = length (sent_proposals (strategy one_sent))
  /\ Forall (fun c => is_Some (carpark_decision c))
       (received_proposals (strategy (at_barrier (propose "agent_X" 0 9) one_sent))).
Proof.
  assert (Hlen : length (buffered (propose "agent_X" 0 9) one_sent)
                 = length (sent_proposals (strategy one_sent)))
    by reflexivity.
  split; [exact Hlen|].
  exact (proj1 (proj2 (decision_pass_fills_every_slot (propose "agent_X" 0 9) 0
                         one_sent Hlen))).
Defined.

(** The proposal of agent_Z closes a round of three: agent_Y, pending and
    the cheapest, is accepted; agent_X, declined on arrival, and agent_Z,
    pending but from another sender, are declined. *)
Lemma accepted_iff_pending_with_cheapest_sender_witness :
  Forall undisturbed (received_proposals (strategy two_buffered))
  /\ length (buffered (propose "agent_Z" 2 11) two_buffered)
     = length (sent_proposals (strategy two_buffered))
  /\ (exists c',
        received_proposals (strategy (at_barrier (propose "agent_Z" 2 11) two_buffered))
          !! 0 = Some c'
        /\ carpark_sender c' = "agent_Y" /\ carpark_decision c' = Some ACCEPT)
  /\ (exists c',
        received_proposals (strategy (at_barrier (propose "agent_Z" 2 11) two_buffered))
          !! 1 = Some c'
        /\ carpark_sender c' = "agent_X" /\ carpark_decision c' = Some DECLINE)
  /\ (exists c',
        received_proposals (strategy (at_barrier (propose "agent_Z" 2 11) two_buffered))
          !! 2 = Some c'
        /\ carpark_sender c' = "agent_Z" /\ carpark_decision c' = Some DECLINE).
Proof.
  assert (Hok : Forall undisturbed (received_proposals (strategy two_buffered))).
  { vm_compute. constructor; [split; [reflexivity | left; reflexivity]|].
    constructor; [split; [reflexivity | right; reflexivity]|]. constructor. }
  assert (Hlen : length (buffered (propose "agent_Z" 2 11) two_buffered)
                 = length (sent_proposals (strategy two_buffered)))
    by (vm_compute; reflexivity).
  assert (H0 : buffered (propose "agent_Z" 2 11) two_buffered !! 0
               = Some (new_carpark (propose "agent_Y" 1 9)))
    by (vm_compute; reflexivity).
  assert (H1 : buffered (propose "agent_Z" 2 11) two_buffered !! 1
               = Some (new_carpark (propose "agent_X" 0 150)))
    by (vm_compute; reflexivity).
  assert (H2 : buffered (propose "agent_Z" 2 11) two_buffered !! 2
               = Some (new_carpark (propose "agent_Z" 2 11)))
    by (vm_compute; reflexivity).
  split; [exact Hok|]. split; [exact Hlen|]. split; [|split].
  - destruct (accepted_iff_pending_with_cheapest_sender
                (propose "agent_Z" 2 11) 2 two_buffered 0 _ Hok Hlen H0)
      as (_ & c' & Hc' & Hacc & _).
    exists c'. split; [exact Hc'|]. split.
    + vm_compute in Hc'. by injection Hc' as <-.
    + apply Hacc. split; [reflexivity | vm_compute; reflexivity].
  - destruct (accepted_iff_pending_with_cheapest_sender
                (propose "agent_Z" 2 11) 2 two_buffered 1 _ Hok Hlen H1)
      as (_ & c' & Hc' & _ & Hdecl).
    exists c'. split; [exact Hc'|]. split.
    + vm_compute in Hc'. by injection Hc' as <-.
    + apply Hdecl. intros [Hnone _]. vm_compute in Hnone. discriminate.
  - destruct (accepted_iff_pending_with_cheapest_sender
                (propose "agent_Z" 2 11) 2 two_buffered 2 _ Hok Hlen H2)
      as (_ & c' & Hc' & _ & Hdecl).
    exists c'. split; [exact Hc'|]. split.
    + vm_compute in Hc'. by injection Hc' as <-.
    + apply Hdecl. intros [_ Hsender]. vm_compute in Hsender. discriminate.
Defined.

Lemma cheapest_is_accepted_witness :
  length (buffered (propose "agent_X" 0 9) one_sent)
  = length (sent_proposals (strategy one_sent))
  /\ get_cheapest_proposal (pending (buffered (propose "agent_X" 0 9) one_sent))
     ∈ pending (buffered (propose "agent_X" 0 9) one_sent)
  /\ set_decision ACCEPT
       (get_cheapest_proposal (pending (buffered (propose "agent_X" 0 9) one_sent)))
     ∈ received_proposals (strategy (at_barrier (propose "agent_X" 0 9) one_sent)).
Proof.
  assert (Hlen : length (buffered (propose "agent_X" 0 9) one_sent)
                 = length (sent_proposals (strategy one_sent)))
    by reflexivity.
  assert (Hin : get_cheapest_proposal (pending (buffered (propose "agent_X" 0 9) one_sent))
                ∈ pending (buffered (propose "agent_X" 0 9) one_sent))
    by (vm_compute; apply list_elem_of_here).
  split; [exact Hlen|]. split; [exact Hin|].
  exact (proj2 (cheapest_is_accepted (propose "agent_X" 0 9) 0 one_sent Hlen Hin)).
Defined.

(** A proposal over the budget closes a round of one. *)
Lemma round_without_winner_witness :
  length (buffered (propose "agent_X" 0 150) one_sent)
  = length (sent_proposals (strategy one_sent))
  /\ Forall (fun c => carpark_decision c = Some DECLINE)
       (buffered (propose "agent_X" 0 150) one_sent)
  /\ _handle_propose (propose "agent_X" 0 150) 0 one_sent
     = (fst (_handle_propose (propose "agent_X" 0 150) 0 one_sent), Returned tt)
  /\ exists replies,
      outbox (fst (_handle_propose (propose "agent_X" 0 150) 0 one_sent))
      = outbox one_sent ++ replies
      /\ Forall (fun m : OutMessage Z string => performative m = DECLINE) replies.
Proof.
  assert (Hlen : length (buffered (propose "agent_X" 0 150) one_sent)
                 = length (sent_proposals (strategy one_sent)))
    by reflexivity.
  assert (Hdec : Forall (fun c => carpark_decision c = Some DECLINE)
                   (buffered (propose "agent_X" 0 150) one_sent))
    by (repeat constructor).
  assert (Hcall : _handle_propose (propose "agent_X" 0 150) 0 one_sent
                  = (fst (_handle_propose (propose "agent_X" 0 150) 0 one_sent),
                     Returned tt))
    by (vm_compute; reflexivity).
  split; [exact Hlen|]. split; [exact Hdec|]. split; [exact Hcall|].
  destruct (round_without_winner _ _ _ _ Hlen Hdec Hcall)
    as (replies & Hout & _ & Hall & _).
  exists replies. split; [exact Hout | exact Hall].
Defined.

Lemma replies_match_sent_witness :
  length (buffered (propose "agent_X" 0 9) one_sent)
  = length (sent_proposals (strategy one_sent))
  /\ _handle_propose (propose "agent_X" 0 9) 0 one_sent
     = (fst (_handle_propose (propose "agent_X" 0 9) 0 one_sent), Returned tt)
  /\ exists replies,
      outbox (fst (_handle_propose (propose "agent_X" 0 9) 0 one_sent))
      = outbox one_sent ++ replies
      /\ length replies = length (sent_proposals (strategy one_sent)).
Proof.
  assert (Hlen : length (buffered (propose "agent_X" 0 9) one_sent)
                 = length (sent_proposals (strategy one_sent)))
    by reflexivity.
  assert (Hcall : _handle_propose (propose "agent_X" 0 9) 0 one_sent
                  = (fst (_handle_propose (propose "agent_X" 0 9) 0 one_sent), Returned tt))
    by (vm_compute; reflexivity).
  split; [exact Hlen|]. split; [exact Hcall|].
  destruct (replies_match_sent _ _ _ _ Hlen Hcall) as (replies & Hout & Hn & _).
  exists replies. split; [exact Hout | exact Hn].
Defined.

(** The dialogue of the proposal that closes the round is missing. *)
Lemma failed_fan_out_wedges_round_witness :
  _handle_propose (propose "agent_X" 0 9) 0 no_dialogue
  = (fst (_handle_propose (propose "agent_X" 0 9) 0 no_dialogue), Raised UnknownDialogue)
  /\ sent_proposals (strategy (fst (_handle_propose (propose "agent_X" 0 9) 0 no_dialogue)))
     = sent_proposals (strategy no_dialogue).
Proof.
  assert (Hcall : _handle_propose (propose "agent_X" 0 9) 0 no_dialogue
                  = (fst (_handle_propose (propose "agent_X" 0 9) 0 no_dialogue),
                     Raised UnknownDialogue))
    by (vm_compute; reflexivity).
  split; [exact Hcall|].
  exact (proj1 (proj2 (failed_fan_out_wedges_round _ _ _ _ _ Hcall))).
Defined.

Lemma propose_keeps_search_flags_witness :
  _handle_propose (propose "agent_X" 0 9) 0 one_sent
  = (fst (_handle_propose (propose "agent_X" 0 9) 0 one_sent), Returned tt)
  /\ is_searching (strategy (fst (_handle_propose (propose "agent_X" 0 9) 0 one_sent)))
     = is_searching (strategy one_sent).
Proof.
  assert (Hcall : _handle_propose (propose "agent_X" 0 9) 0 one_sent
                  = (fst (_handle_propose (propose "agent_X" 0 9) 0 one_sent), Returned tt))
    by (vm_compute; reflexivity).
  split; [exact Hcall|].
  exact (proj1 (propose_keeps_search_flags _ _ _ _ _ Hcall)).
Defined.

Lemma returned_call_keeps_buffer_undisturbed_witness :
  Forall undisturbed (received_proposals (strategy two_sent))
  /\ _handle_propose (propose "agent_X" 0 150) 0 two_sent
     = (fst (_handle_propose (propose "agent_X" 0 150) 0 two_sent), Returned tt)
  /\ Forall undisturbed
       (received_proposals
          (strategy (fst (_handle_propose (propose "agent_X" 0 150) 0 two_sent)))).
Proof.
  assert (Hok : Forall undisturbed (received_proposals (strategy two_sent)))
    by apply Forall_nil_2.
  assert (Hcall : _handle_propose (propose "agent_X" 0 150) 0 two_sent
                  = (fst (_handle_propose (propose "agent_X" 0 150) 0 two_sent),
                     Returned tt))
    by (vm_compute; reflexivity).
  split; [exact Hok|]. split; [exact Hcall|].
  exact (returned_call_keeps_buffer_undisturbed _ _ _ _ Hok Hcall).
Defined.

Lemma last5_is_suffix_witness :
  String.length "abc" <= 5 /\ last5 "abc" = "abc".
Proof.
  assert (Hle : String.length "abc" <= 5) by (vm_compute; lia).
  split; [exact Hle|].
  exact (proj2 (proj2 (last5_is_suffix "abc")) Hle).
Defined.

(** The same agent is found twice before it answers. *)
Lemma search_results_accumulate_witness :
  agents {| agents := ["agent_X"] |} <> []
  /\ _handle_search {| agents := ["agent_X"] |} 0 fresh = (searched, Returned tt)
  /\ _handle_search {| agents := ["agent_X"] |} 0 searched
     = (fst (_handle_search {| agents := ["agent_X"] |} 0 searched), Returned tt)
  /\ sent_proposals
       (strategy (fst (_handle_search {| agents := ["agent_X"] |} 0 searched)))
     = sent_proposals (strategy fresh)
       ++ get_acceptable_counterparties ["agent_X"]
       ++ get_acceptable_counterparties ["agent_X"].
Proof.
  assert (Hne : agents {| agents := ["agent_X"] |} <> []) by discriminate.
  assert (H1 : _handle_search {| agents := ["agent_X"] |} 0 fresh = (searched, Returned tt))
    by (vm_compute; reflexivity).
  assert (H2 : _handle_search {| agents := ["agent_X"] |} 0 searched
               = (fst (_handle_search {| agents := ["agent_X"] |} 0 searched), Returned tt))
    by (vm_compute; reflexivity).
  split; [exact Hne|]. split; [exact H1|]. split; [exact H2|].
  exact (proj1 (search_results_accumulate _ _ _ _ _ _ _ Hne Hne H1 H2)).
Defined.

End Scenarios.

(** * The registry client *)

(** C9 (registry errors surface).  A request for which authentication is
    not missing is sent exactly once.  When the server answers with a 2xx
    status the client returns the parsed JSON body; every other status ends
    in a CLI error, which for 409 carries the [detail] field of the body; a
    connection failure ends in a CLI error as well.  No case sends a second
    request. *)
Theorem request_api_surfaces_errors (method path : string) (is_auth : bool)
    (token : option string) (return_code : bool) (net : Registry.Network) :
  (is_auth = true -> is_Some token) ->
  Registry.requests_made
    (fst (Registry.request_api method path is_auth token return_code net))
  = S (Registry.requests_made net)
  /\ match Registry.respond net (Registry.requests_made net) method path with
     | Registry.Responds resp =>
         (Registry.is_2xx (Registry.status_code resp) = true ->
          exists code,
            snd (Registry.request_api method path is_auth token return_code net)
            = inr (Registry.json resp, code))
         /\ (Registry.is_2xx (Registry.status_code resp) = false ->
             exists e,
               snd (Registry.request_api method path is_auth token return_code net)
               = inl e)
         /\ (Registry.status_code resp = 409%Z ->
             snd (Registry.request_api method path is_auth token return_code net)
             = inl (Registry.Conflict (Registry.field "detail" (Registry.json resp))))
     | Registry.ConnectionError =>
         snd (Registry.request_api method path is_auth token return_code net)
         = inl Registry.ServerNotResponding
     end.
Proof.
  intros Hauth. unfold Registry.request_api.
  assert (Hgo : is_auth && negb (bool_decide (is_Some token)) = false).
  { destruct is_auth; [|done]. simpl. by rewrite bool_decide_eq_true_2 by auto. }
  rewrite Hgo.
  destruct (Registry.respond net _ method path) as [resp|]; [|done].
  destruct (Registry.is_2xx (Registry.status_code resp)) eqn:H2xx; simpl.
  - split; [done|]. split; [by eauto|]. split; [done|].
    intros H409. rewrite H409 in H2xx. done.
  - destruct (Registry.status_code resp =? 409)%Z eqn:H409; simpl.
    + split; [done|]. split; [done|]. split; [by eauto|]. done.
    + split; [done|]. split; [done|]. split; [by eauto|]. lia.
Qed.

(** The responses of the tests: 409 with a detail, 200 with a body, and a
    server that does not respond. *)
Lemma request_api_surfaces_errors_witness :
  (snd (Registry.request_api "GET" "/path" false None false
          (Registry.always
             (Registry.Responds
                {| Registry.status_code := 409; Registry.json := [("detail", "some")] |})))
   = inl (Registry.Conflict (Some "some"))
   /\ Registry.requests_made
        (fst (Registry.request_api "GET" "/path" false None false
                (Registry.always
                   (Registry.Responds
                      {| Registry.status_code := 409;
                         Registry.json := [("detail", "some")] |}))))
      = 1)
  /\ (exists code,
        snd (Registry.request_api "GET" "/path" false None false
               (Registry.always
                  (Registry.Responds
                     {| Registry.status_code := 200;
                        Registry.json := [("correct", "json")] |})))
        = inr ([("correct", "json")], code))
  /\ snd (Registry.request_api "GET" "/path" false None false
            (Registry.always Registry.ConnectionError))
     = inl Registry.ServerNotResponding.
Proof.
  pose proof (request_api_surfaces_errors "GET" "/path" false None false
                (Registry.always
                   (Registry.Responds
                      {| Registry.status_code := 409;
                         Registry.json := [("detail", "some")] |}))
                ltac:(discriminate)) as [Hone (_ & _ & H409)].
  pose proof (request_api_surfaces_errors "GET" "/path" false None false
                (Registry.always
                   (Registry.Responds
                      {| Registry.status_code := 200;
                         Registry.json := [("correct", "json")] |}))
                ltac:(discriminate)) as [_ (H200 & _ & _)].
  pose proof (request_api_surfaces_errors "GET" "/path" false None false
                (Registry.always Registry.ConnectionError)
                ltac:(discriminate)) as [_ Hdown].
  split; [split; [exact (H409 eq_refl) | exact Hone]|].
  split; [exact (H200 eq_refl) | exact Hdown].
Defined.
